(** * cxxio: redirectable stream handles over plain and compressed files

    A shallow embedding of [include/cxxio.hpp].  The two classes [Out] and
    [In] are records; their member functions are computations in a small
    state-and-exception monad over the handle and the world (disk, console
    and the store of live stream objects).  The part of the C++ stream
    library the header relies on ([std::basic_ios], stream buffers,
    [std::getline]) is modelled next to it, and the compression codec of
    [bxzstr.hpp] is an interface. *)

From Stdlib Require Import ZArith Bool Lia.
From Stdlib Require Import Strings.Byte.
From stdpp Require Import base option list gmap strings.

(** ** The stream library: state bits and [std::basic_ios] *)

(** [std::ios_base::iostate] is a bitmask type; the constants are those of
    libstdc++. *)
Module ios_base.
Definition iostate := Z.
Definition goodbit : iostate := 0%Z.
Definition badbit : iostate := 1%Z.
Definition eofbit : iostate := 2%Z.
Definition failbit : iostate := 4%Z.
End ios_base.
Import ios_base.

(** The two standard streams whose buffers the header names. *)
Inductive std_stream := std_cin | std_cout.

(** A [std::streambuf*]: null, the buffer of a standard stream, or the
    buffer of a stream object in the store. *)
Inductive bufptr :=
| nullptr
| static_buf (s : std_stream)
| heap_buf (a : nat).

Definition is_null (p : bufptr) : bool :=
  match p with nullptr => true | _ => false end.

(** The [std::basic_ios] part of a stream: the buffer it is attached to and
    its error state.  The view streams [os] and [is] of the handles are such
    objects. *)
Record ios := mk_ios { rdbuf : bufptr; rdstate : iostate }.

Definition good (s : ios) : bool := (rdstate s =? goodbit)%Z.
Definition eof (s : ios) : bool := negb (Z.land (rdstate s) eofbit =? 0)%Z.
Definition fail (s : ios) : bool :=
  negb (Z.land (rdstate s) (Z.lor failbit badbit) =? 0)%Z.
Definition bad (s : ios) : bool := negb (Z.land (rdstate s) badbit =? 0)%Z.

(** [basic_ios::init(sb)], run by the constructor [std::ostream(sb)]. *)
Definition ios_init (sb : bufptr) : ios :=
  mk_ios sb (if is_null sb then badbit else goodbit).

(** [basic_ios::clear(state)]: a stream without a buffer is always bad. *)
Definition clear (state : iostate) (s : ios) : ios :=
  mk_ios (rdbuf s) (if is_null (rdbuf s) then Z.lor state badbit else state).

(** [basic_ios::setstate(state)] is [clear(rdstate() | state)]. *)
Definition setstate (state : iostate) (s : ios) : ios :=
  clear (Z.lor (rdstate s) state) s.

(** [basic_ios::rdbuf(sb)] attaches the buffer and calls [clear()]. *)
Definition set_rdbuf (sb : bufptr) (s : ios) : ios :=
  clear goodbit (mk_ios sb (rdstate s)).

(** ** Exceptions *)

Inductive exception :=
| file_not_writable (name : string)
| cannot_read_from_file (name : string)
| directory_does_not_exist (dirpath : string)
| runtime_error (msg : string).

Definition what (e : exception) : string :=
  match e with
  | file_not_writable name =>
      "File " +:+ name +:+ " is not writable (does the directory exist?)."
  | cannot_read_from_file name => "Cannot read from file: " +:+ name +:+ "."
  | directory_does_not_exist dirpath =>
      "Directory " +:+ dirpath +:+ " does not exist."
  | runtime_error msg => msg
  end.

(** The classes derived from [exceptions::file_exception]. *)
Definition is_file_exception (e : exception) : bool :=
  match e with runtime_error _ => false | _ => true end.

(** How a call ends: it returns, it throws, or its behaviour is undefined
    (a destroyed stream object is used). *)
Inductive outcome (A : Type) :=
| Normal (a : A)
| Raise (e : exception)
| Undefined.
Arguments Normal {A} a.
Arguments Raise {A} e.
Arguments Undefined {A}.

(** ** Integer types *)

(** The integer type a counter is declared with.  Arithmetic wraps around
    (two's complement for the signed types). *)
Record inttype := mk_inttype { is_signed : bool; width : Z }.

Definition wrap (T : inttype) (z : Z) : Z :=
  if is_signed T
  then ((z + 2 ^ (width T - 1)) mod 2 ^ width T - 2 ^ (width T - 1))%Z
  else (z mod 2 ^ width T)%Z.

Definition int : inttype := mk_inttype true 32.
Definition uint8_t : inttype := mk_inttype false 8.
Definition size_t : inttype := mk_inttype false 64.

(** ** The codec collaborator ([bxzstr.hpp]) *)

(** Modelled from the spec: the codec of [bxzstr.hpp], which is not part of
    the sources.  The header needs the enumeration [bxz::Compression], a
    writer ([bxz::ofstream]: the image it leaves on disk for the bytes it was
    fed, by kind and level) and a reader ([bxz::ifstream]: the bytes it
    delivers for an image, the kind being detected from the image).  Both
    streams report failure through their state like the standard file
    streams do. *)
Class Bxz := {
  Compression : Type;
  compress : Compression -> Z -> list byte -> list byte;
  decompress : list byte -> list byte
}.

(** ** The world: disk, console and live stream objects *)

Section World.
Context `{codec : Bxz}.

(** The buffer of a file stream object. *)
Inductive streambuf :=
| reading (avail : list byte)
    (* input side of a [bxz::ifstream]: decoded bytes not yet delivered *)
| writing (path : string) (kind : option (Compression * Z)) (sent : list byte)
    (* output side: [std::ofstream] ([None]) or [bxz::ofstream] on the file
       [path], with all the bytes it has accepted so far *)
| unopened.
    (* the file could not be opened *)

(** A cell of the store: a stream object with its own state and buffer, or
    the trace of a destroyed one (addresses are never handed out twice). *)
Inductive cell :=
| Live (st : iostate) (sb : streambuf)
| Freed.

Record World := mk_World {
  disk : gmap string (list byte);   (* the content of each file *)
  denied : gset string;             (* names that cannot be opened for writing *)
  heap : gmap nat cell;
  cout_rdstate : iostate;           (* [std::cout.rdstate()] *)
  console_out : list byte;
  console_in : list byte;
  resolve : string -> string;       (* the file a name denotes: two names of
                                       one file resolve to the same key of
                                       [disk] *)
  offsets : gmap nat nat            (* for each writer, by its address, the
                                       offset in its file up to which it has
                                       written its output *)
}.

Definition with_disk (d : gmap string (list byte)) (w : World) : World :=
  mk_World d (denied w) (heap w) (cout_rdstate w) (console_out w) (console_in w)
           (resolve w) (offsets w).
Definition with_heap (h : gmap nat cell) (w : World) : World :=
  mk_World (disk w) (denied w) h (cout_rdstate w) (console_out w) (console_in w)
           (resolve w) (offsets w).
Definition with_console_out (o : list byte) (w : World) : World :=
  mk_World (disk w) (denied w) (heap w) (cout_rdstate w) o (console_in w)
           (resolve w) (offsets w).
Definition with_console_in (i : list byte) (w : World) : World :=
  mk_World (disk w) (denied w) (heap w) (cout_rdstate w) (console_out w) i
           (resolve w) (offsets w).
Definition with_offsets (o : gmap nat nat) (w : World) : World :=
  mk_World (disk w) (denied w) (heap w) (cout_rdstate w) (console_out w)
           (console_in w) (resolve w) o.

(** The offset of the writer at [a]: 0 until it has written. *)
Definition offset_of (a : nat) (w : World) : nat := default 0 (offsets w !! a).

(** [write(fd, bs)] with the descriptor at [offset]: the bytes take the
    place of what the file holds from there on, as far as they reach; a gap
    between the end of the file and [offset] reads as zero bytes. *)
Definition write_at (content : list byte) (offset : nat) (bs : list byte) : list byte :=
  take offset (content ++ replicate (offset - length content) "000"%byte)
  ++ bs ++ drop (offset + length bs) content.

(** A writer puts [bs] into [file] at [offset]; with no bytes to put,
    nothing is written. *)
Definition disk_write (file : string) (offset : nat) (bs : list byte)
    (d : gmap string (list byte)) : gmap string (list byte) :=
  if bool_decide (bs = []) then d
  else <[file := write_at (default [] (d !! file)) offset bs]> d.

(** The image a writer leaves for the bytes it accepted. *)
Definition image (kind : option (Compression * Z)) (sent : list byte) : list byte :=
  match kind with
  | None => sent
  | Some (type, level) => compress type level sent
  end.

(** The file a name denotes for reading; the empty name denotes none. *)
Definition readable (filename : string) (w : World) : option (list byte) :=
  if decide (filename = "") then None else disk w !! resolve w filename.

Definition can_write (filename : string) (w : World) : bool :=
  negb (bool_decide (filename = "")) && negb (bool_decide (filename ∈ denied w)).

Definition alloc (c : cell) (w : World) : nat * World :=
  let a := fresh (dom (heap w)) in (a, with_heap (<[a := c]> (heap w)) w).

(** [new std::ofstream(filename)] and, with the same surface,
    [new bxz::ofstream(filename, type, level)]: the file the name denotes is
    created or truncated, and the writer starts at offset 0 of it; a stream
    that cannot open its file has [failbit] set. *)
Definition new_ofstream (filename : string) (kind : option (Compression * Z))
    (w : World) : nat * World :=
  if can_write filename w
  then let file := resolve w filename in
       let (a, w1) := alloc (Live goodbit (writing file kind []))
                            (with_disk (<[file := []]> (disk w)) w) in
       (a, with_offsets (<[a := 0]> (offsets w1)) w1)
  else alloc (Live failbit unopened) w.

(** Modelled from the spec: the constructor of [bxz::ifstream], absent from
    the sources.  [new bxz::ifstream(filename)] makes a stream that delivers
    the decoded content of the file; a stream that cannot open its file has
    [failbit] set.  (A reader that finds its image damaged is not
    modelled.) *)
Definition new_ifstream (filename : string) (w : World) : nat * World :=
  match readable filename w with
  | Some raw => alloc (Live goodbit (reading (decompress raw))) w
  | None => alloc (Live failbit unopened) w
  end.

(** [delete p]: a writer puts the rest of its output, what of its image it
    has not written yet, into its file at its own offset, whatever the file
    holds by then.  [None] where the object is not alive (undefined
    behaviour). *)
Definition delete_stream (a : nat) (w : World) : option World :=
  match heap w !! a with
  | Some (Live _ (writing path kind sent)) =>
      Some (with_heap (<[a := Freed]> (heap w))
              (with_disk (disk_write path (offset_of a w)
                                     (drop (offset_of a w) (image kind sent))
                                     (disk w)) w))
  | Some (Live _ _) => Some (with_heap (<[a := Freed]> (heap w)) w)
  | _ => None
  end.

(** The stream object at [a] has not been destroyed. *)
Definition alive (a : nat) (w : World) : Prop :=
  exists st sb, heap w !! a = Some (Live st sb).

(** [p->rdstate()] of a stream object in the store. *)
Definition stream_rdstate (a : nat) (w : World) : option iostate :=
  match heap w !! a with
  | Some (Live st _) => Some st
  | _ => None
  end.

(** [sb->pubsync()]: a plain file stream puts the bytes it has accepted
    and not written yet into its file at its offset, and the offset moves
    behind them; what a compressed file looks like before its writer is
    released is left to the codec and not modelled.  The result is the success
    flag; [None] for a buffer that is no longer alive. *)
Definition pubsync (sb : bufptr) (w : World) : option (bool * World) :=
  match sb with
  | nullptr => None
  | static_buf _ => Some (true, w)
  | heap_buf a =>
      match heap w !! a with
      | Some (Live _ (writing path None sent)) =>
          Some (true,
                with_offsets (<[a := length sent]> (offsets w))
                  (with_disk (disk_write path (offset_of a w)
                                         (drop (offset_of a w) sent) (disk w)) w))
      | Some (Live _ _) => Some (true, w)
      | _ => None
      end
  end.

(** [sb->sputn(bs)]: whether all of [bs] was accepted. *)
Definition sputn (sb : bufptr) (bs : list byte) (w : World) : option (bool * World) :=
  match sb with
  | nullptr => None
  | static_buf std_cout => Some (true, with_console_out (console_out w ++ bs) w)
  | static_buf std_cin => Some (bool_decide (bs = []), w)
  | heap_buf a =>
      match heap w !! a with
      | Some (Live st (writing path kind sent)) =>
          Some (true, with_heap (<[a := Live st (writing path kind (sent ++ bs))]> (heap w)) w)
      | Some (Live _ _) => Some (bool_decide (bs = []), w)
      | _ => None
      end
  end.

(** The bytes a buffer can still deliver to a reader. *)
Definition sgetall (sb : bufptr) (w : World) : option (list byte) :=
  match sb with
  | nullptr => None
  | static_buf std_cin => Some (console_in w)
  | static_buf std_cout => Some []
  | heap_buf a =>
      match heap w !! a with
      | Some (Live _ (reading avail)) => Some avail
      | Some (Live _ _) => Some []
      | _ => None
      end
  end.

(** Consume input: the buffer is left with [rest] to deliver. *)
Definition sconsume (sb : bufptr) (rest : list byte) (w : World) : World :=
  match sb with
  | static_buf std_cin => with_console_in rest w
  | heap_buf a =>
      match heap w !! a with
      | Some (Live st (reading _)) =>
          with_heap (<[a := Live st (reading rest)]> (heap w)) w
      | _ => w
      end
  | _ => w
  end.

(** [os.flush()]: nothing without a buffer; otherwise a sentry guards
    [rdbuf()->pubsync()], whose failure sets [badbit]. *)
Definition ostream_flush (s : ios) (w : World) : option (ios * World) :=
  if is_null (rdbuf s) then Some (s, w)
  else if good s then
    match pubsync (rdbuf s) w with
    | Some (true, w') => Some (s, w')
    | Some (false, w') => Some (setstate badbit s, w')
    | None => None
    end
  else Some (setstate failbit s, w).

(** [os << bytes] for character data ([std::string], [const char*]): a
    sentry guards [rdbuf()->sputn], whose failure sets [badbit]. *)
Definition ostream_write (bs : list byte) (s : ios) (w : World) : option (ios * World) :=
  if good s then
    match sputn (rdbuf s) bs w with
    | Some (true, w') => Some (s, w')
    | Some (false, w') => Some (setstate badbit s, w')
    | None => None
    end
  else Some (setstate failbit s, w).

(** The first line of the available input: the bytes before the first
    newline, and what follows that newline if there is one. *)
Definition newline : byte := "010"%byte.

Fixpoint split_line (bs : list byte) : list byte * option (list byte) :=
  match bs with
  | [] => ([], None)
  | b :: bs' =>
      if Byte.eqb b newline then ([], Some bs')
      else let (l, rest) := split_line bs' in (b :: l, rest)
  end.

(** [std::getline(is, line)]: under a sentry, characters are moved to
    [line] up to a newline, which is taken out and dropped; running out of
    input sets [eofbit], and taking out nothing at all sets [failbit].  When
    the sentry fails, [failbit] is set and [line] keeps its value.  (The limit
    [line.max_size()] is out of reach.) *)
Definition istream_getline (s : ios) (line : list byte) (w : World)
    : option (ios * list byte * World) :=
  if good s then
    match sgetall (rdbuf s) w with
    | None => None
    | Some avail =>
        match split_line avail with
        | (l, Some rest) => Some (s, l, sconsume (rdbuf s) rest w)
        | (l, None) =>
            Some (setstate (if bool_decide (l = []) then Z.lor eofbit failbit else eofbit) s,
                  l, sconsume (rdbuf s) [] w)
        end
    end
  else Some (setstate failbit s, line, w).

(** ** Computations: handle state, world, exceptions *)

(** A member function of a class with state [S]: the handle and the world
    are threaded through, and keep their changes when an exception leaves
    the function. *)
Definition M (S A : Type) : Type := S -> World -> outcome A * S * World.

Definition ret {S A} (a : A) : M S A := fun this w => (Normal a, this, w).
Definition throw {S A} (e : exception) : M S A := fun this w => (Raise e, this, w).
Definition bind {S A B} (m : M S A) (k : A -> M S B) : M S B :=
  fun this w =>
    match m this w with
    | (Normal a, this', w') => k a this' w'
    | (Raise e, this', w') => (Raise e, this', w')
    | (Undefined, this', w') => (Undefined, this', w')
    end.

End World.

Declare Scope cxx_scope.
Delimit Scope cxx_scope with cxx.
Notation "x <- m ;; k" := (bind m (fun x => k))
  (at level 100, m at next level, right associativity) : cxx_scope.
Notation "m ;; k" := (bind m (fun _ => k))
  (at level 100, right associativity) : cxx_scope.

(** ** class Out *)

Module Out.
Section Out.
Context `{codec : Bxz}.

(** [byname] is the [std::unique_ptr<std::ostream>]: the address of the
    owned stream object, if any.  [os] is the view stream. *)
Record t := mk { byname : option nat; os : ios; myfile : string }.

Definition with_byname (p : option nat) (this : t) : t := mk p (os this) (myfile this).
Definition with_os (s : ios) (this : t) : t := mk (byname this) s (myfile this).

(** The statements the member functions are made of. *)

Definition os_flush : M t unit := fun this w =>
  match ostream_flush (os this) w with
  | Some (s, w') => (Normal tt, with_os s this, w')
  | None => (Undefined, this, w)
  end.

(** [new std::ofstream(...)] or [new bxz::ofstream(...)]. *)
Definition new_stream (filename : string) (kind : option (Compression * Z)) : M t nat :=
  fun this w => let (p, w') := new_ofstream filename kind w in (Normal p, this, w').

(** [byname.reset(p)]: take [p], then destroy the stream owned before. *)
Definition byname_reset (p : option nat) : M t unit := fun this w =>
  match byname this with
  | None => (Normal tt, with_byname p this, w)
  | Some old =>
      match delete_stream old w with
      | Some w' => (Normal tt, with_byname p this, w')
      | None => (Undefined, this, w)
      end
  end.

(** [byname->rdbuf()] and [byname->rdstate()]. *)
Definition byname_rdbuf : M t bufptr := fun this w =>
  match byname this with
  | Some a => (Normal (heap_buf a), this, w)
  | None => (Undefined, this, w)
  end.
Definition byname_rdstate : M t iostate := fun this w =>
  match byname this with
  | Some a =>
      match stream_rdstate a w with
      | Some st => (Normal st, this, w)
      | None => (Undefined, this, w)
      end
  | None => (Undefined, this, w)
  end.

Definition os_rdbuf (sb : bufptr) : M t unit := fun this w =>
  (Normal tt, with_os (set_rdbuf sb (os this)) this, w).
Definition os_setstate (st : iostate) : M t unit := fun this w =>
  (Normal tt, with_os (setstate st (os this)) this, w).
(** [!os] *)
Definition os_not : M t bool := fun this w => (Normal (fail (os this)), this, w).
Definition cout_state : M t iostate := fun this w => (Normal (cout_rdstate w), this, w).

(** [Out(std::ostream& stream = std::cout)], given [stream.rdbuf()]. *)
Definition of_stream (sb : bufptr) : t := mk None (ios_init sb) "".
Definition default : t := of_stream (static_buf std_cout).

(** [Out(std::string filename)]: the members are initialised in the order
    [byname], [os], [myfile]; when the body throws they are destroyed
    again. *)
Definition of_file (filename : string) (w : World) : outcome t * World :=
  let (p, w1) := new_ofstream filename None w in
  let this := mk (Some p) (ios_init (heap_buf p)) filename in
  if fail (os this) then
    match delete_stream p w1 with
    | Some w2 => (Raise (file_not_writable filename), w2)
    | None => (Undefined, w1)
    end
  else (Normal this, w1).

Definition open (filename : string) : M t unit :=
  (os_flush ;;
   p <- new_stream filename None ;;
   byname_reset (Some p) ;;
   sb <- byname_rdbuf ;;
   os_rdbuf sb ;;
   st <- byname_rdstate ;;
   os_setstate st ;;
   failed <- os_not ;;
   if failed : bool then throw (file_not_writable filename) else ret tt)%cxx.

Definition open_compressed (filename : string) (type : Compression) (level : Z) : M t unit :=
  (os_flush ;;
   p <- new_stream filename (Some (type, level)) ;;
   byname_reset (Some p) ;;
   sb <- byname_rdbuf ;;
   os_rdbuf sb ;;
   st <- byname_rdstate ;;
   os_setstate st ;;
   failed <- os_not ;;
   if failed : bool then throw (file_not_writable filename) else ret tt)%cxx.

Definition close : M t unit :=
  (os_flush ;;
   byname_reset None ;;
   os_rdbuf (static_buf std_cout) ;;
   st <- cout_state ;;
   os_setstate st)%cxx.

Definition flush : M t unit := os_flush.

Definition stream (this : t) : ios := os this.
Definition filename (this : t) : string := myfile this.

(** [Out& operator<<(Out &os, T t)], for a value type [T] whose inserter
    into a [std::ostream] is [insert] ([None] where that is undefined) and
    whose [typeid(T).name()] is [type_name]. *)
Section Insert.
Context {T : Type} (type_name : string)
        (insert : T -> ios -> World -> option (ios * World)).

Definition stream_insert (v : T) : M t unit := fun this w =>
  match insert v (stream this) w with
  | Some (s, w') => (Normal tt, with_os s this, w')
  | None => (Undefined, this, w)
  end.

Definition shl (v : T) : M t unit :=
  (stream_insert v ;;
   fun this =>
     if negb (good (stream this)) && negb (eof (stream this))
     then throw (runtime_error ("Error writing type: " +:+ type_name +:+
                                " to file " +:+ filename this)) this
     else ret tt this)%cxx.
End Insert.

(** The owned stream and the buffer of the view are alive. *)
Definition valid (this : t) (w : World) : Prop :=
  (forall a, byname this = Some a -> alive a w) /\
  (forall a, rdbuf (os this) = heap_buf a -> alive a w).

End Out.
End Out.

(** ** class In *)

Module In.
Section In.
Context `{codec : Bxz}.

(** [byname] is the [std::unique_ptr<bxz::ifstream>]; [is_] is the view
    stream [is]. *)
Record t := mk { byname : option nat; is_ : ios; myfile : string }.

Definition with_byname (p : option nat) (this : t) : t := mk p (is_ this) (myfile this).
Definition with_is (s : ios) (this : t) : t := mk (byname this) s (myfile this).
Definition with_myfile (f : string) (this : t) : t := mk (byname this) (is_ this) f.

(** [new bxz::ifstream(filename)] *)
Definition new_stream (filename : string) : M t nat :=
  fun this w => let (p, w') := new_ifstream filename w in (Normal p, this, w').

(** [byname.reset(p)]: take [p], then destroy the stream owned before. *)
Definition byname_reset (p : option nat) : M t unit := fun this w =>
  match byname this with
  | None => (Normal tt, with_byname p this, w)
  | Some old =>
      match delete_stream old w with
      | Some w' => (Normal tt, with_byname p this, w')
      | None => (Undefined, this, w)
      end
  end.

Definition byname_rdbuf : M t bufptr := fun this w =>
  match byname this with
  | Some a => (Normal (heap_buf a), this, w)
  | None => (Undefined, this, w)
  end.
Definition byname_rdstate : M t iostate := fun this w =>
  match byname this with
  | Some a =>
      match stream_rdstate a w with
      | Some st => (Normal st, this, w)
      | None => (Undefined, this, w)
      end
  | None => (Undefined, this, w)
  end.

Definition is_rdbuf (sb : bufptr) : M t unit := fun this w =>
  (Normal tt, with_is (set_rdbuf sb (is_ this)) this, w).
Definition is_setstate (st : iostate) : M t unit := fun this w =>
  (Normal tt, with_is (setstate st (is_ this)) this, w).
(** [!is] *)
Definition is_not : M t bool := fun this w => (Normal (fail (is_ this)), this, w).
Definition get_myfile : M t string := fun this w => (Normal (myfile this), this, w).
Definition set_myfile (f : string) : M t unit := fun this w =>
  (Normal tt, with_myfile f this, w).

Definition reset_state (filename : string) : M t unit :=
  (p <- new_stream filename ;;
   byname_reset (Some p) ;;
   sb <- byname_rdbuf ;;
   is_rdbuf sb ;;
   st <- byname_rdstate ;;
   is_setstate st)%cxx.

Definition open (filename : string) : M t unit :=
  (set_myfile filename ;;
   f <- get_myfile ;;
   reset_state f ;;
   failed <- is_not ;;
   if failed : bool
   then throw (runtime_error ("Cannot read from file: " +:+ filename +:+ "."))
   else ret tt)%cxx.

Definition close : M t unit := byname_reset None.

Definition rewind : M t unit :=
  (f <- get_myfile ;; reset_state f)%cxx.

Definition stream (this : t) : ios := is_ this.
Definition filename (this : t) : string := myfile this.

(** A constructor whose body throws destroys the members again. *)
Definition construct (body : M t unit) (this : t) (w : World) : outcome t * World :=
  match body this w with
  | (Normal _, this', w') => (Normal this', w')
  | (Raise e, this', w') =>
      match byname_reset None this' w' with
      | (Undefined, _, w'') => (Undefined, w'')
      | (_, _, w'') => (Raise e, w'')
      end
  | (Undefined, _, w') => (Undefined, w')
  end.

(** [In(std::istream& stream = std::cin)], given [stream.rdbuf()]. *)
Definition of_stream (sb : bufptr) : t := mk None (ios_init sb) "".
Definition default : t := of_stream (static_buf std_cin).

(** [In(std::string filename) : is(std::cout.rdbuf()), myfile(filename)] *)
Definition of_file (filename : string) (w : World) : outcome t * World :=
  construct (open filename) (mk None (ios_init (static_buf std_cout)) filename) w.

(** [In(In&& in) : is(std::cout.rdbuf())] *)
Definition move (in_ : t) (w : World) : outcome t * World :=
  construct (if bool_decide (filename in_ = "") then ret tt else open (filename in_))
            (mk None (ios_init (static_buf std_cout)) "") w.

(** The loop [while (std::getline(this->is, line)) n_lines += 1;] of
    [count_lines<T>], run for at most [fuel] tests of its condition. *)
Fixpoint count_loop (T : inttype) (fuel : nat) (n_lines : Z) (line : list byte)
    (this : t) (w : World) : option (outcome Z * t * World) :=
  match fuel with
  | O => None
  | S fuel' =>
      match istream_getline (is_ this) line w with
      | None => Some (Undefined, this, w)
      | Some (s, line', w') =>
          if fail s then Some (Normal n_lines, with_is s this, w')
          else count_loop T fuel' (wrap T (n_lines + 1)) line' (with_is s this) w'
      end
  end.

(** [T count_lines()]; [None] when [fuel] does not suffice for the loop. *)
Definition count_lines (T : inttype) (fuel : nat) (this : t) (w : World)
    : option (outcome Z * t * World) :=
  match count_loop T fuel 0 [] this w with
  | None => None
  | Some (Normal n_lines, this', w') =>
      Some ((rewind ;; ret n_lines)%cxx this' w')
  | Some stop => Some stop
  end.

(** [In& operator>>(In &is, T &t)], for a value type whose extractor from
    a [std::istream] is [extract]; the state is the handle together with the
    variable [t]. *)
Section Extract.
Context {T : Type} (type_name : string)
        (extract : T -> ios -> World -> option (T * ios * World)).

Definition stream_extract : M (t * T) unit := fun '(this, v) w =>
  match extract v (stream this) w with
  | Some (v', s, w') => (Normal tt, (with_is s this, v'), w')
  | None => (Undefined, (this, v), w)
  end.

Definition shr : M (t * T) unit :=
  (stream_extract ;;
   fun st =>
     if negb (good (stream st.1)) && negb (eof (stream st.1))
     then throw (runtime_error ("Error writing type: " +:+ type_name +:+
                                " to file " +:+ filename st.1)) st
     else ret tt st)%cxx.
End Extract.

(** A caller reading every remaining line:
    [while (std::getline(in.stream(), line)) lines.push_back(line);] *)
Fixpoint getlines (fuel : nat) (lines : list (list byte)) (line : list byte)
    (this : t) (w : World) : option (outcome (list (list byte)) * t * World) :=
  match fuel with
  | O => None
  | S fuel' =>
      match istream_getline (stream this) line w with
      | None => Some (Undefined, this, w)
      | Some (s, line', w') =>
          if fail s then Some (Normal lines, with_is s this, w')
          else getlines fuel' (lines ++ [line']) line' (with_is s this) w'
      end
  end.

(** The owned stream is alive.  (The buffer of the view need not be:
    [close] leaves the view attached to the destroyed stream.) *)
Definition valid (this : t) (w : World) : Prop :=
  forall a, byname this = Some a -> alive a w.

(** The bytes the view stream will deliver, from the next one on. *)
Definition upcoming (this : t) (w : World) : option (list byte) :=
  sgetall (rdbuf (stream this)) w.

End In.
End In.

(** A caller writing character data piece by piece:
    [for (const std::string &s : chunks) out << s;] *)
Fixpoint write_all `{codec : Bxz} (type_name : string) (chunks : list (list byte))
    : M Out.t unit :=
  match chunks with
  | [] => ret tt
  | chunk :: rest =>
      (Out.shl type_name ostream_write chunk ;; write_all type_name rest)%cxx
  end.

(** ** Vocabulary of the specification *)

Definition raises {A} (r : outcome A) : bool :=
  match r with Raise _ => true | _ => false end.

(** A hard failure: the stream is neither good nor at end-of-stream. *)
Definition hard_failure (s : ios) : bool := negb (good s) && negb (eof s).

Fixpoint count_newlines (bs : list byte) : nat :=
  match bs with
  | [] => 0
  | b :: bs' => (if Byte.eqb b newline then 1 else 0) + count_newlines bs'
  end.

(** Non-empty content whose last byte is not a newline. *)
Definition unterminated (bs : list byte) : bool :=
  match last bs with
  | Some b => negb (Byte.eqb b newline)
  | None => false
  end.

(** The lines of a byte sequence: the pieces between newlines; a last piece
    without a newline is a line when it is not empty.  [cur] is the line
    begun so far. *)
Fixpoint split_lines_from (cur : list byte) (bs : list byte) : list (list byte) :=
  match bs with
  | [] => if bool_decide (cur = []) then [] else [cur]
  | b :: bs' =>
      if Byte.eqb b newline then cur :: split_lines_from [] bs'
      else split_lines_from (cur ++ [b]) bs'
  end.
Definition split_lines (bs : list byte) : list (list byte) := split_lines_from [] bs.

(** ** A small codec and small worlds to run the model on *)

Definition bytes (s : string) : list byte := String.list_byte_of_string s.

(** Kind [true] frames the data behind a marker byte, kind [false] stores
    it as it is; the reader detects the marker. *)
Definition marker : byte := "031"%byte.

Definition framing : Bxz := {|
  Compression := bool;
  compress := fun (type : bool) (level : Z) bs => if type then marker :: bs else bs;
  decompress := fun raw =>
    match raw with
    | b :: bs => if Byte.eqb b marker then bs else raw
    | [] => []
    end
|}.

(** Names are files of one directory; a leading ["./"] makes no
    difference. *)
Definition same_directory (filename : string) : string :=
  if String.prefix "./" filename
  then String.substring 2 (String.length filename - 2) filename
  else filename.

Definition empty_world : @World framing := mk_World ∅ ∅ ∅ goodbit [] [] same_directory ∅.

Definition data_world (content : string) : @World framing :=
  mk_World {[ "data.txt" := bytes content ]} ∅ ∅ goodbit [] [] same_directory ∅.

(** A file of three lines, the last one without a newline. *)
Definition three_lines : string := "a
b
c".

(** A handle in a hard-failure state: it owns a stream that could not open
    its file, and its view is bad. *)
Definition broken_out : Out.t := Out.mk (Some 0) (mk_ios (heap_buf 0) badbit) "out.txt".
Definition broken_world : @World framing :=
  mk_World ∅ ∅ {[ 0 := Live failbit unopened ]} goodbit [] [] same_directory ∅.

(** ** [directory_exists] *)

(** The directories of the file system and the directory streams that are
    open ([DIR*] values handed out by [opendir] and not yet closed). *)
Record Dirs := mk_Dirs { directories : gset string; open_dirs : gset nat }.

(** [opendir(path)]: a new directory stream, or null when [path] is not a
    directory. *)
Definition opendir (path : string) (d : Dirs) : option nat * Dirs :=
  if decide (path ∈ directories d)
  then let dir := fresh (open_dirs d) in
       (Some dir, mk_Dirs (directories d) ({[dir]} ∪ open_dirs d))
  else (None, d).

Definition closedir (dir : nat) (d : Dirs) : Dirs :=
  mk_Dirs (directories d) (open_dirs d ∖ {[dir]}).

Definition directory_exists (dir_path : string) (d : Dirs) : outcome unit * Dirs :=
  let (dir, d1) := opendir dir_path d in
  match dir with
  | Some h => (Normal tt, closedir h d1)
  | None => (Raise (directory_does_not_exist dir_path), d1)
  end.

(** ** Callers: sequences of calls on one handle *)

Section Callers.
Context `{codec : Bxz}.

(** The calls a user makes on an output handle; character data is written
    with [operator<<]. *)
Inductive Out_call :=
| call_open (filename : string)
| call_open_compressed (filename : string) (type : Compression) (level : Z)
| call_close
| call_flush
| call_write (type_name : string) (bs : list byte).

Definition Out_do (c : Out_call) : M Out.t unit :=
  match c with
  | call_open filename => Out.open filename
  | call_open_compressed filename type level => Out.open_compressed filename type level
  | call_close => Out.close
  | call_flush => Out.flush
  | call_write type_name bs => Out.shl type_name ostream_write bs
  end.

(** The calls are made one after the other, the caller catching what they
    throw; [None] as soon as a call has undefined behaviour. *)
Fixpoint Out_run (calls : list Out_call) (this : Out.t) (w : World)
    : option (Out.t * World) :=
  match calls with
  | [] => Some (this, w)
  | c :: rest =>
      match Out_do c this w with
      | (Undefined, _, _) => None
      | (_, this', w') => Out_run rest this' w'
      end
  end.

(** The calls on an input handle that do not read. *)
Inductive In_call :=
| call_In_open (filename : string)
| call_In_close
| call_In_rewind.

Definition In_do (c : In_call) : M In.t unit :=
  match c with
  | call_In_open filename => In.open filename
  | call_In_close => In.close
  | call_In_rewind => In.rewind
  end.

Fixpoint In_run (calls : list In_call) (this : In.t) (w : World)
    : option (In.t * World) :=
  match calls with
  | [] => Some (this, w)
  | c :: rest =>
      match In_do c this w with
      | (Undefined, _, _) => None
      | (_, this', w') => In_run rest this' w'
      end
  end.

(** [n] calls of [rewind()] in a row. *)
Fixpoint rewinds (n : nat) (this : In.t) (w : World) : outcome unit * In.t * World :=
  match n with
  | O => (Normal tt, this, w)
  | S n' => (In.rewind ;; rewinds n')%cxx this w
  end.

End Callers.

(** More small worlds. *)

(** ["data.txt"] holds [content]; a handle on it has read up to [rest]. *)
Definition reading_world (content rest : string) : @World framing :=
  mk_World {[ "data.txt" := bytes content ]} ∅
           {[ 0 := Live goodbit (reading (bytes rest)) ]} goodbit [] []
           same_directory ∅.
Definition reading_in : In.t := In.mk (Some 0) (mk_ios (heap_buf 0) goodbit) "data.txt".

(** Nothing on disk, [typed] waiting on standard input. *)
Definition console_world (typed : string) : @World framing :=
  mk_World ∅ ∅ ∅ goodbit [] (bytes typed) same_directory ∅.

(** No name can be written. *)
Definition locked_world : @World framing :=
  mk_World ∅ {[ "out.txt" ]} ∅ goodbit [] [] same_directory ∅.

(** A handle in the middle of writing ["old.txt"]: two bytes accepted, none
    of them in the file yet. *)
Definition writing_out : Out.t := Out.mk (Some 0) (mk_ios (heap_buf 0) goodbit) "".
Definition writing_world : @World framing :=
  mk_World {[ "old.txt" := [] ]} ∅
           {[ 0 := Live goodbit (writing "old.txt" None (bytes "hi")) ]}
           goodbit [] [] same_directory {[ 0 := 0 ]}.

Definition some_dirs : Dirs := mk_Dirs {[ "results" ]} ∅.

(** ** Properties *)

(** *** Stream state *)

Lemma set_rdbuf_setstate sb st s :
  is_null sb = false -> setstate st (set_rdbuf sb s) = mk_ios sb st.
Proof.
  intros Hsb. unfold setstate, set_rdbuf, clear; simpl.
  rewrite Hsb. reflexivity.
Qed.

Lemma good_not_fail s : good s = true -> fail s = false.
Proof.
  unfold good, fail, goodbit. intros H%Z.eqb_eq. rewrite H. reflexivity.
Qed.

Lemma good_not_eof s : good s = true -> eof s = false.
Proof.
  unfold good, eof, goodbit. intros H%Z.eqb_eq. rewrite H. reflexivity.
Qed.

Lemma hard_failure_iff s :
  hard_failure s = true <-> good s = false /\ eof s = false.
Proof.
  unfold hard_failure. rewrite andb_true_iff, !negb_true_iff. reflexivity.
Qed.

Section Properties.
Context `{codec : Bxz}.

(** *** Stores *)

Lemma alloc_fresh (c : cell) (w : World) :
  heap w !! (alloc c w).1 = None.
Proof.
  unfold alloc; simpl. apply not_elem_of_dom. apply is_fresh.
Qed.

Lemma alloc_lookup (c : cell) (w : World) :
  heap (alloc c w).2 !! (alloc c w).1 = Some c.
Proof. unfold alloc; simpl. apply lookup_insert_eq. Qed.

Lemma alloc_other (c : cell) (w : World) a x :
  heap w !! a = Some x -> heap (alloc c w).2 !! a = Some x /\ a <> (alloc c w).1.
Proof.
  intros Ha.
  assert (a <> (alloc c w).1) as Hne.
  { intros ->. rewrite alloc_fresh in Ha. discriminate. }
  split; [|exact Hne].
  unfold alloc in *; simpl in *. rewrite lookup_insert_ne; [exact Ha | congruence].
Qed.

Lemma ostream_flush_alive s w :
  (forall a, rdbuf s = heap_buf a -> alive a w) ->
  exists s' w', ostream_flush s w = Some (s', w') /\
    rdbuf s' = rdbuf s /\ heap w' = heap w /\
    cout_rdstate w' = cout_rdstate w /\ denied w' = denied w.
Proof.
  intros Hal. unfold ostream_flush.
  destruct (is_null (rdbuf s)) eqn:Hnull; [eauto 10|].
  destruct (good s); [|eexists _, _; split; [reflexivity|]; simpl; auto].
  destruct (rdbuf s) as [|std|a] eqn:Hbuf; [discriminate| |]; simpl.
  - eauto 10.
  - destruct (Hal a eq_refl) as (st & sb & ->).
    destruct sb as [avail|path [kind|] sent|]; eexists _, _; (split; [reflexivity|]); simpl; auto.
Qed.

Lemma delete_stream_alive a w :
  alive a w ->
  exists w', delete_stream a w = Some w' /\
    heap w' = <[a := Freed]> (heap w) /\
    cout_rdstate w' = cout_rdstate w /\ denied w' = denied w /\
    match heap w !! a with
    | Some (Live _ (writing path kind sent)) =>
        disk w' = disk_write path (offset_of a w)
                             (drop (offset_of a w) (image kind sent)) (disk w)
    | _ => disk w' = disk w
    end.
Proof.
  intros (st & sb & Ha). unfold delete_stream. rewrite Ha.
  destruct sb; eexists; (split; [reflexivity|]); simpl; auto.
Qed.

Lemma delete_stream_frame a (w w' : World) :
  delete_stream a w = Some w' ->
  console_in w' = console_in w /\ console_out w' = console_out w /\
  denied w' = denied w /\ cout_rdstate w' = cout_rdstate w /\
  resolve w' = resolve w /\ offsets w' = offsets w.
Proof.
  unfold delete_stream.
  destruct (heap w !! a) as [[st [avail|path kind sent|]|]|]; intros [= <-];
    repeat split.
Qed.

(** Writing into one file leaves the others as they are; into an empty
    file from offset 0, or behind all of its content, it leaves the bytes
    written, or the content followed by them. *)
Lemma disk_write_other file offset bs (d : gmap string (list byte)) other :
  file <> other -> disk_write file offset bs d !! other = d !! other.
Proof.
  intros Hne. unfold disk_write.
  destruct (bool_decide (bs = [])); [reflexivity|]. apply lookup_insert_ne. exact Hne.
Qed.

Lemma disk_write_append file content bs (d : gmap string (list byte)) :
  d !! file = Some content ->
  disk_write file (length content) bs d !! file = Some (content ++ bs).
Proof.
  intros Hfile. unfold disk_write.
  destruct (bool_decide (bs = [])) eqn:Hbs.
  - apply bool_decide_eq_true in Hbs. subst bs. rewrite app_nil_r. exact Hfile.
  - rewrite lookup_insert_eq, Hfile. simpl. unfold write_at.
    rewrite Nat.sub_diag. simpl. rewrite app_nil_r, take_ge by lia.
    rewrite drop_ge by lia. rewrite app_nil_r. reflexivity.
Qed.

Lemma disk_write_empty_file file bs (d : gmap string (list byte)) :
  d !! file = Some [] -> disk_write file 0 bs d !! file = Some bs.
Proof. intros Hfile. apply (disk_write_append file [] bs d Hfile). Qed.

(** A new writer: its address is not in use; with the name writable the
    file it denotes is empty and the writer stands at offset 0 of it. *)
Lemma new_ofstream_spec filename kind (w : World) :
  exists p w1,
    new_ofstream filename kind w = (p, w1) /\
    heap w !! p = None /\
    heap w1 = <[p := (if can_write filename w
                      then Live goodbit (writing (resolve w filename) kind [])
                      else Live failbit unopened)]> (heap w) /\
    disk w1 = (if can_write filename w
               then <[resolve w filename := []]> (disk w) else disk w) /\
    (can_write filename w = true -> offsets w1 !! p = Some 0) /\
    resolve w1 = resolve w /\ denied w1 = denied w /\
    cout_rdstate w1 = cout_rdstate w /\ console_out w1 = console_out w /\
    (forall a, a <> p -> offsets w1 !! a = offsets w !! a).
Proof.
  assert (heap w !! fresh (dom (heap w)) = None) as Hfresh
    by (apply not_elem_of_dom, is_fresh).
  unfold new_ofstream, alloc. destruct (can_write filename w); simpl;
    eexists _, _; (split; [reflexivity|]); simpl;
    (split; [exact Hfresh|]); (split; [reflexivity|]); (split; [reflexivity|]);
    (split; [|do 4 (split; [reflexivity|])]).
  - intros _. apply lookup_insert_eq.
  - intros a Ha. apply lookup_insert_ne. congruence.
  - discriminate.
  - intros a _. reflexivity.
Qed.

(** *** [Out] *)

(** [Out::open] and [Out::open_compressed] leave [myfile] alone. *)
Lemma Out_open_myfile filename this w :
  Out.filename (Out.open filename this w).1.2 = Out.filename this.
Proof.
  unfold Out.open, bind, Out.os_flush, Out.new_stream, Out.byname_reset,
    Out.byname_rdbuf, Out.os_rdbuf, Out.byname_rdstate, Out.os_setstate,
    Out.os_not, throw, ret.
  destruct (ostream_flush (Out.os this) w) as [[s w1]|]; [|reflexivity]; simpl.
  destruct (new_ofstream filename None w1) as [p w2]; simpl.
  destruct (Out.byname this) as [old|]; simpl.
  - destruct (delete_stream old w2) as [w3|]; [|reflexivity]; simpl.
    destruct (stream_rdstate p w3); [|reflexivity]; simpl.
    match goal with |- context [if ?b then _ else _] => destruct b end; reflexivity.
  - destruct (stream_rdstate p w2); [|reflexivity]; simpl.
    match goal with |- context [if ?b then _ else _] => destruct b end; reflexivity.
Qed.

(** [os.flush()] changes files and offsets only. *)
Lemma ostream_flush_frame s (w : World) s' w' :
  ostream_flush s w = Some (s', w') ->
  heap w' = heap w /\ resolve w' = resolve w /\ denied w' = denied w /\
  cout_rdstate w' = cout_rdstate w /\ console_out w' = console_out w.
Proof.
  unfold ostream_flush, pubsync.
  destruct (is_null (rdbuf s)); [intros [= _ <-]; repeat split|].
  destruct (good s); [|intros [= _ <-]; repeat split].
  destruct (rdbuf s) as [|std|a]; [discriminate | intros [= _ <-]; repeat split |].
  destruct (heap w !! a) as [[st [avail|path [kind|] sent|]|]|];
    try discriminate; intros [= _ <-]; repeat split.
Qed.

(** What [Out::close] does for a valid handle. *)
Lemma Out_close_spec (this : Out.t) (w : World) :
  Out.valid this w ->
  exists w',
    Out.close this w =
      (Normal tt,
       Out.mk None (mk_ios (static_buf std_cout) (cout_rdstate w)) (Out.myfile this),
       w') /\
    cout_rdstate w' = cout_rdstate w /\
    (forall a, Out.byname this = Some a -> heap w' !! a = Some Freed) /\
    resolve w' = resolve w.
Proof.
  intros [Hown Hview].
  destruct (ostream_flush_alive (Out.os this) w Hview)
    as (s1 & w1 & Hflush & Hbuf & Hheap & Hcout & _).
  destruct (ostream_flush_frame _ _ _ _ Hflush) as (_ & Hres & _).
  unfold Out.close, bind, Out.os_flush, Out.byname_reset, Out.os_rdbuf,
    Out.cout_state, Out.os_setstate.
  rewrite Hflush; simpl.
  destruct (Out.byname this) as [old|] eqn:Hby; simpl.
  - assert (alive old w1) as Hold.
    { unfold alive. rewrite Hheap. apply Hown. reflexivity. }
    destruct (delete_stream old w1) as [w2|] eqn:Hdel.
    2: { destruct (delete_stream_alive old w1 Hold) as (w2 & Hd & _). congruence. }
    destruct (delete_stream_alive old w1 Hold) as (w2' & Hd & Hheap2 & Hcout2 & _).
    rewrite Hdel in Hd. injection Hd as <-.
    destruct (delete_stream_frame old w1 w2 Hdel) as (_ & _ & _ & _ & Hres2 & _).
    simpl. exists w2. rewrite set_rdbuf_setstate by reflexivity.
    rewrite Hcout2, Hcout. split; [reflexivity|]. split; [reflexivity|]. split.
    + intros a [= <-]. rewrite Hheap2. apply lookup_insert_eq.
    + congruence.
  - exists w1. rewrite set_rdbuf_setstate by reflexivity.
    rewrite Hcout. split; [reflexivity|]. split; [reflexivity|].
    split; [intros a [=] | exact Hres].
Qed.

(** C6.  Whatever state a valid output handle is in, [Out::close] returns
    with the view attached to the buffer of [std::cout], the owned stream
    destroyed and no longer held, and the state of the view equal to the
    state of [std::cout]: an earlier failure of the view is gone. *)
Theorem Out_close_rebinds_to_cout (this : Out.t) (w : World) :
  Out.valid this w ->
  exists this' w',
    Out.close this w = (Normal tt, this', w') /\
    rdbuf (Out.stream this') = static_buf std_cout /\
    Out.byname this' = None /\
    (forall a, Out.byname this = Some a -> heap w' !! a = Some Freed) /\
    rdstate (Out.stream this') = cout_rdstate w' /\
    good (Out.stream this') = (cout_rdstate w' =? goodbit)%Z /\
    Out.filename this' = Out.filename this.
Proof.
  intros Hvalid.
  destruct (Out_close_spec this w Hvalid) as (w' & -> & Hcout & Hfreed & _).
  eexists _, w'. split; [reflexivity|]. simpl. rewrite Hcout.
  repeat split; auto.
Qed.

(** C1 ([Out] half and [In] half).  A transfer through the generic
    operators throws exactly when the state the view stream is left in is a
    hard failure; a state with [eofbit] never makes it throw. *)
Theorem transfer_raises_iff_hard_failure :
  (forall (T : Type) (type_name : string)
          (insert : T -> ios -> World -> option (ios * World))
          (v : T) (this : Out.t) (w : World),
     let '(r, this', _) := Out.shl type_name insert v this w in
     match insert v (Out.stream this) w with
     | Some (s, _) =>
         Out.stream this' = s /\ raises r = hard_failure s /\
         eof s && raises r = false
     | None => r = Undefined
     end) /\
  (forall (T : Type) (type_name : string)
          (extract : T -> ios -> World -> option (T * ios * World))
          (v : T) (this : In.t) (w : World),
     let '(r, (this', _), _) := In.shr type_name extract (this, v) w in
     match extract v (In.stream this) w with
     | Some (_, s, _) =>
         In.stream this' = s /\ raises r = hard_failure s /\
         eof s && raises r = false
     | None => r = Undefined
     end).
Proof.
  split; intros T type_name f v this w.
  - unfold Out.shl, bind, Out.stream_insert, throw, ret.
    destruct (f v (Out.stream this) w) as [[s w']|]; [|reflexivity]; simpl.
    unfold Out.stream; simpl. unfold hard_failure.
    destruct (good s), (eof s); simpl; auto.
  - unfold In.shr, bind, In.stream_extract, throw, ret.
    destruct (f v (In.stream this) w) as [[[v' s] w']|]; [|reflexivity]; simpl.
    unfold In.stream; simpl. unfold hard_failure.
    destruct (good s), (eof s); simpl; auto.
Qed.

(** C3, at the failing input: a handle on [std::cout] opens ["out.txt"]
    with success, and [filename()] still returns the empty string. *)
Theorem Out_open_forgets_filename :
  (Out.open "out.txt" Out.default empty_world).1.1 = Normal tt /\
  Out.filename (Out.open "out.txt" Out.default empty_world).1.2 = "" /\
  Out.filename (Out.open "out.txt" Out.default empty_world).1.2 <> "out.txt".
Proof. vm_compute. repeat split; discriminate. Qed.

(** A handle made for one file and opened on another still answers with
    the first name. *)
Example Out_open_keeps_stale_name :
  exists this w1,
    Out.of_file "a.txt" empty_world = (Normal this, w1) /\
    (Out.open "b.txt" this w1).1.1 = Normal tt /\
    Out.filename (Out.open "b.txt" this w1).1.2 = "a.txt".
Proof. eexists _, _. split; [vm_compute; reflexivity|]. split; vm_compute; reflexivity. Qed.

(** C9.  [close] does not touch the stored file name, for both classes
    and all handles; the handle holds no stream afterwards.  A handle
    constructed by [Out(filename)] stores [filename] and keeps it over
    [close]. *)
Theorem close_keeps_filename :
  (forall (this : In.t) (w : World),
     let '(r, this', _) := In.close this w in
     In.filename this' = In.filename this /\
     match r with Normal _ => In.byname this' = None | _ => True end) /\
  (forall (this : Out.t) (w : World),
     let '(r, this', _) := Out.close this w in
     Out.filename this' = Out.filename this /\
     match r with Normal _ => Out.byname this' = None | _ => True end) /\
  (forall (filename : string) (w : World),
     exists this w1 this' w2,
       Out.of_file filename w = (Normal this, w1) /\
       Out.filename this = filename /\
       Out.close this w1 = (Normal tt, this', w2) /\
       Out.filename this' = filename /\ Out.byname this' = None).
Proof.
  split; [|split].
  - intros this w. unfold In.close, In.byname_reset.
    destruct (In.byname this) as [old|] eqn:Hby; simpl; [|auto].
    destruct (delete_stream old w); simpl; auto.
  - intros this w.
    unfold Out.close, bind, Out.os_flush, Out.byname_reset, Out.os_rdbuf,
      Out.cout_state, Out.os_setstate.
    destruct (ostream_flush (Out.os this) w) as [[s w1]|]; simpl; [|auto].
    destruct (Out.byname this) as [old|]; simpl; [|auto].
    destruct (delete_stream old w1); simpl; auto.
  - intros filename w. unfold Out.of_file.
    destruct (new_ofstream filename None w) as [p w1] eqn:Hnew; simpl.
    set (this := Out.mk (Some p) (mk_ios (heap_buf p) goodbit) filename).
    assert (Out.valid this w1) as Hvalid.
    { assert (alive p w1) as Hp.
      { destruct (new_ofstream_spec filename None w) as (p' & w1' & Hn & _ & Hh & _).
        rewrite Hnew in Hn. injection Hn as <- <-.
        unfold alive. rewrite Hh, lookup_insert_eq.
        destruct (can_write filename w); eauto. }
      split; simpl; intros a [= <-]; exact Hp. }
    destruct (Out_close_spec this w1 Hvalid) as (w2 & Hclose & _).
    eexists this, w1, _, w2. rewrite Hclose. auto.
Qed.

(** *** [In] *)

Ltac unfold_In :=
  unfold In.open, In.rewind, In.reset_state, bind, In.set_myfile,
    In.get_myfile, In.new_stream, In.byname_reset, In.byname_rdbuf,
    In.is_rdbuf, In.byname_rdstate, In.is_setstate, In.is_not, throw, ret.

(** What [reset_state] does for a valid handle: a new stream object is
    made, the one owned before is destroyed, and the view takes the buffer
    and the state of the new one. *)
Lemma In_reset_state_spec filename this w :
  In.valid this w ->
  let (p, w1) := new_ifstream filename w in
  exists st sb w2,
    heap w1 !! p = Some (Live st sb) /\
    In.reset_state filename this w =
      (Normal tt, In.mk (Some p) (mk_ios (heap_buf p) st) (In.myfile this), w2) /\
    heap w2 !! p = Some (Live st sb) /\
    (forall a, In.byname this = Some a -> heap w2 !! a = Some Freed) /\
    match readable filename w with
    | Some raw => st = goodbit /\ sb = reading (decompress raw)
    | None => st = failbit /\ sb = unopened
    end /\
    disk w1 = disk w /\ resolve w1 = resolve w /\
    (In.byname this = None -> w2 = w1).
Proof.
  intros Hvalid.
  destruct (new_ifstream filename w) as [p w1] eqn:Hnew.
  assert (exists c, (p, w1) = alloc c w /\
            match readable filename w with
            | Some raw => c = Live goodbit (reading (decompress raw))
            | None => c = Live failbit unopened
            end) as (c & Halloc & Hc).
  { unfold new_ifstream in Hnew. destruct (readable filename w); eauto. }
  assert (exists st sb, c = Live st sb /\
            match readable filename w with
            | Some raw => st = goodbit /\ sb = reading (decompress raw)
            | None => st = failbit /\ sb = unopened
            end) as (st & sb & -> & Hst).
  { destruct (readable filename w); subst c; eauto. }
  pose proof (alloc_lookup (Live st sb) w) as Hp. rewrite <- Halloc in Hp; simpl in Hp.
  assert (disk w1 = disk w /\ resolve w1 = resolve w) as [Hdisk Hres].
  { replace w1 with (alloc (Live st sb) w).2 by (rewrite <- Halloc; reflexivity).
    split; reflexivity. }
  unfold_In. rewrite Hnew; simpl.
  destruct (In.byname this) as [old|] eqn:Hby; simpl.
  - destruct (Hvalid old Hby) as (st0 & sb0 & Hold).
    destruct (alloc_other (Live st sb) w old _ Hold) as [Hold1 Hne].
    rewrite <- Halloc in Hold1, Hne; simpl in Hold1, Hne.
    assert (alive old w1) as Hal by (unfold alive; eauto).
    destruct (delete_stream_alive old w1 Hal) as (w2 & -> & Hheap2 & _).
    simpl. unfold stream_rdstate.
    assert (heap w2 !! p = Some (Live st sb)) as Hp2.
    { rewrite Hheap2, lookup_insert_ne by congruence. exact Hp. }
    rewrite Hp2; simpl. rewrite set_rdbuf_setstate by reflexivity.
    exists st, sb, w2. repeat split; auto; [|discriminate].
    intros a [= <-]. rewrite Hheap2. apply lookup_insert_eq.
  - unfold stream_rdstate. rewrite Hp; simpl.
    rewrite set_rdbuf_setstate by reflexivity.
    exists st, sb, w1. repeat split; auto. intros a [=].
Qed.

Lemma In_open_unfold filename this w :
  In.open filename this w =
    match In.reset_state filename (In.with_myfile filename this) w with
    | (Normal _, this', w') =>
        if fail (In.is_ this')
        then (Raise (runtime_error ("Cannot read from file: " +:+ filename +:+ ".")),
              this', w')
        else (Normal tt, this', w')
    | (Raise e, this', w') => (Raise e, this', w')
    | (Undefined, this', w') => (Undefined, this', w')
    end.
Proof.
  unfold In.open, bind at 1 2 3, In.set_myfile, In.get_myfile; simpl.
  unfold bind at 1.
  destruct (In.reset_state filename (In.with_myfile filename this) w)
    as [[[[]| |] this'] w']; try reflexivity.
  unfold bind, In.is_not, throw, ret. destruct (fail (In.is_ this')); reflexivity.
Qed.

Lemma In_rewind_unfold this w :
  In.rewind this w = In.reset_state (In.myfile this) this w.
Proof. reflexivity. Qed.

Lemma readable_empty (w : World) : readable "" w = None.
Proof. reflexivity. Qed.

(** The only exception [In::open] throws is a [std::runtime_error]. *)
Lemma In_open_raises_runtime_error filename this w e :
  (In.open filename this w).1.1 = Raise e ->
  e = runtime_error ("Cannot read from file: " +:+ filename +:+ ".").
Proof.
  unfold_In.
  destruct (new_ifstream _ w) as [p w1]; simpl.
  destruct (In.byname this) as [old|]; simpl.
  - destruct (delete_stream old w1) as [w2|]; simpl; [|discriminate].
    destruct (stream_rdstate p w2); simpl; [|discriminate].
    match goal with |- context [if ?b then _ else _] => destruct b end; simpl; congruence.
  - destruct (stream_rdstate p w1); simpl; [|discriminate].
    match goal with |- context [if ?b then _ else _] => destruct b end; simpl; congruence.
Qed.

(** A name that cannot be opened for reading makes [In::open] throw. *)
Lemma In_open_unreadable filename this w :
  In.valid this w -> readable filename w = None ->
  (In.open filename this w).1.1 =
    Raise (runtime_error ("Cannot read from file: " +:+ filename +:+ ".")).
Proof.
  intros Hvalid Hno. rewrite In_open_unfold.
  pose proof (In_reset_state_spec filename (In.with_myfile filename this) w Hvalid) as H.
  destruct (new_ifstream filename w) as [p w1].
  destruct H as (st & sb & w2 & _ & -> & _ & _ & Hst & _).
  rewrite Hno in Hst. destruct Hst as [-> _]. reflexivity.
Qed.

(** C4, at the failing input: opening a file that does not exist throws a
    [std::runtime_error]; it carries the message of
    [exceptions::cannot_read_from_file] but is not that exception, nor any
    other [file_exception]. *)
Theorem In_open_missing_throws_runtime_error :
  exists e,
    (In.open "missing.txt" In.default empty_world).1.1 = Raise e /\
    e = runtime_error "Cannot read from file: missing.txt." /\
    e <> cannot_read_from_file "missing.txt" /\
    is_file_exception e = false /\
    what e = what (cannot_read_from_file "missing.txt").
Proof.
  eexists. split; [vm_compute; reflexivity|].
  repeat split. discriminate.
Qed.

(** C5, at the failing input: a handle moved from a handle on [std::cin]
    reads from the buffer of [std::cout], not of [std::cin]. *)
Theorem In_move_from_stdin_binds_cout :
  exists this',
    In.move In.default empty_world = (Normal this', empty_world) /\
    rdbuf (In.stream In.default) = static_buf std_cin /\
    rdbuf (In.stream this') = static_buf std_cout /\
    rdbuf (In.stream this') <> static_buf std_cin.
Proof.
  eexists. split; [reflexivity|]. repeat split. discriminate.
Qed.

(** The same for every source handle without a file name. *)
Lemma In_move_empty_name in_ w :
  In.filename in_ = "" ->
  In.move in_ w = (Normal (In.mk None (mk_ios (static_buf std_cout) goodbit) ""), w).
Proof.
  intros H. unfold In.move. rewrite H. reflexivity.
Qed.

(** C10.  [In::rewind] never throws.  On a valid handle whose stored
    name is empty or cannot be opened for reading it returns, and the view
    stream is left failed. *)
Theorem In_rewind_never_raises (this : In.t) (w : World) :
  raises (In.rewind this w).1.1 = false /\
  (In.valid this w ->
   In.myfile this = "" \/ readable (In.myfile this) w = None ->
   exists this' w',
     In.rewind this w = (Normal tt, this', w') /\
     fail (In.stream this') = true /\
     In.filename this' = In.filename this).
Proof.
  split.
  - unfold_In.
    destruct (new_ifstream _ w) as [p w1]; simpl.
    destruct (In.byname this) as [old|]; simpl.
    + destruct (delete_stream old w1) as [w2|]; simpl; [|reflexivity].
      destruct (stream_rdstate p w2); reflexivity.
    + destruct (stream_rdstate p w1); reflexivity.
  - intros Hvalid Hno.
    assert (readable (In.myfile this) w = None) as Hnone.
    { destruct Hno as [-> | H]; [apply readable_empty | exact H]. }
    rewrite In_rewind_unfold.
    pose proof (In_reset_state_spec (In.myfile this) this w Hvalid) as H.
    destruct (new_ifstream (In.myfile this) w) as [p w1].
    destruct H as (st & sb & w2 & _ & -> & _ & _ & Hst & _).
    rewrite Hnone in Hst. destruct Hst as [-> _].
    eexists _, w2. split; [reflexivity|]. split; reflexivity.
Qed.

(** *** Lines *)

Lemma split_line_rest bs : forall l rest,
  split_line bs = (l, Some rest) ->
  length rest < length bs /\
  forall cur, split_lines_from cur bs = (cur ++ l) :: split_lines rest.
Proof.
  induction bs as [|b bs IH]; intros l rest H; simpl in H; [discriminate|].
  destruct (Byte.eqb b newline) eqn:Hb.
  - injection H as <- <-. split; [simpl; lia|].
    intros cur. simpl. rewrite Hb, app_nil_r. reflexivity.
  - destruct (split_line bs) as [l' rest'] eqn:Hsl.
    injection H as <- ->. destruct (IH l' rest eq_refl) as [Hlen Hlines].
    split; [simpl; lia|].
    intros cur. simpl. rewrite Hb, Hlines, <- app_assoc. reflexivity.
Qed.

Lemma split_line_last bs : forall l,
  split_line bs = (l, None) ->
  (l = [] <-> bs = []) /\
  forall cur, split_lines_from cur bs =
                if bool_decide (cur ++ l = []) then [] else [cur ++ l].
Proof.
  induction bs as [|b bs IH]; intros l H; simpl in H.
  - injection H as <-. split; [tauto|]. intros cur. simpl. rewrite app_nil_r. reflexivity.
  - destruct (Byte.eqb b newline) eqn:Hb; [discriminate|].
    destruct (split_line bs) as [l' rest'] eqn:Hsl.
    injection H as <- ->. destruct (IH l' eq_refl) as [_ Hlines].
    split; [split; discriminate|].
    intros cur. simpl. rewrite Hb, Hlines, <- app_assoc. reflexivity.
Qed.

(** The number of lines is the number of newlines, and one more when the
    content ends in a line without a newline. *)
Lemma length_split_lines_from bs : forall cur,
  length (split_lines_from cur bs) =
    count_newlines bs +
    match last bs with
    | Some b => if Byte.eqb b newline then 0 else 1
    | None => if bool_decide (cur = []) then 0 else 1
    end.
Proof.
  induction bs as [|b bs IH]; intros cur; simpl.
  - destruct (bool_decide (cur = [])); reflexivity.
  - rewrite last_cons.
    destruct (Byte.eqb b newline) eqn:Hb; simpl; rewrite IH.
    + destruct (last bs); simpl; [reflexivity|]. rewrite Hb. reflexivity.
    + destruct (last bs); simpl; [reflexivity|]. rewrite Hb.
      rewrite bool_decide_eq_false_2; [reflexivity|].
      destruct cur; discriminate.
Qed.

Lemma length_split_lines bs :
  length (split_lines bs) =
    count_newlines bs + (if unterminated bs then 1 else 0).
Proof.
  unfold split_lines, unterminated. rewrite length_split_lines_from.
  destruct (last bs) as [b|]; [|reflexivity].
  destruct (Byte.eqb b newline); reflexivity.
Qed.

(** *** Counters *)

Lemma wrap_zero T : wrap T 0 = 0%Z.
Proof.
  unfold wrap. destruct (is_signed T); [|apply Zmod_0_l].
  simpl. destruct (Z_lt_le_dec (width T - 1) 0) as [Hneg|Hpos].
  - rewrite (Z.pow_neg_r 2 (width T - 1)) by exact Hneg.
    rewrite Zmod_0_l. reflexivity.
  - rewrite Z.mod_small; [lia|].
    split; [apply Z.pow_nonneg; lia|].
    apply Z.pow_lt_mono_r; lia.
Qed.

Lemma wrap_add_l T a b : wrap T (wrap T a + b) = wrap T (a + b).
Proof.
  unfold wrap. destruct (is_signed T).
  - f_equal.
    replace ((a + 2 ^ (width T - 1)) mod 2 ^ width T - 2 ^ (width T - 1) + b
             + 2 ^ (width T - 1))%Z
      with ((a + 2 ^ (width T - 1)) mod 2 ^ width T + b)%Z by lia.
    rewrite Zplus_mod_idemp_l. f_equal. lia.
  - apply Zplus_mod_idemp_l.
Qed.

Lemma wrap_iter T (k : nat) :
  Nat.iter k (fun x => wrap T (x + 1)) 0%Z = wrap T (Z.of_nat k).
Proof.
  induction k as [|k IH].
  - simpl. symmetry. apply wrap_zero.
  - rewrite Nat.iter_succ, IH, wrap_add_l. f_equal. lia.
Qed.

(** *** [std::getline] on a view that reads a live stream *)

Section Getline.
Variables (a : nat) (st : iostate) (avail : list byte) (w : World).
Hypothesis Hcell : heap w !! a = Some (Live st (reading avail)).

Lemma getline_line line l rest :
  split_line avail = (l, Some rest) ->
  istream_getline (mk_ios (heap_buf a) goodbit) line w =
    Some (mk_ios (heap_buf a) goodbit, l,
          with_heap (<[a := Live st (reading rest)]> (heap w)) w).
Proof.
  intros Hsl. unfold istream_getline, sconsume; simpl.
  rewrite Hcell; simpl. rewrite Hsl. reflexivity.
Qed.

Lemma getline_last line l :
  split_line avail = (l, None) -> l <> [] ->
  istream_getline (mk_ios (heap_buf a) goodbit) line w =
    Some (mk_ios (heap_buf a) eofbit, l,
          with_heap (<[a := Live st (reading [])]> (heap w)) w).
Proof.
  intros Hsl Hl. unfold istream_getline, sconsume; simpl.
  rewrite Hcell; simpl. rewrite Hsl.
  rewrite bool_decide_eq_false_2 by exact Hl. reflexivity.
Qed.

Lemma getline_end line :
  split_line avail = ([], None) ->
  istream_getline (mk_ios (heap_buf a) goodbit) line w =
    Some (mk_ios (heap_buf a) (Z.lor eofbit failbit), [],
          with_heap (<[a := Live st (reading [])]> (heap w)) w).
Proof.
  intros Hsl. unfold istream_getline, sconsume; simpl.
  rewrite Hcell; simpl. rewrite Hsl. reflexivity.
Qed.
End Getline.

Lemma getline_after_eof a line (w : World) :
  istream_getline (mk_ios (heap_buf a) eofbit) line w =
    Some (mk_ios (heap_buf a) (Z.lor eofbit failbit), line, w).
Proof. reflexivity. Qed.

Lemma with_heap_twice h1 h2 (w : World) :
  with_heap h2 (with_heap h1 w) = with_heap h2 w.
Proof. reflexivity. Qed.

(** The loop of [count_lines] ends; it has advanced the counter once for
    every line of the remaining input, and leaves the view at end-of-stream
    and failed, the input used up. *)
Lemma count_loop_spec T : forall fuel avail n_lines line this w a st,
  In.is_ this = mk_ios (heap_buf a) goodbit ->
  heap w !! a = Some (Live st (reading avail)) ->
  length avail + 2 <= fuel ->
  In.count_loop T fuel n_lines line this w =
    Some (Normal (Nat.iter (length (split_lines avail))
                           (fun x => wrap T (x + 1)) n_lines),
          In.with_is (mk_ios (heap_buf a) (Z.lor eofbit failbit)) this,
          with_heap (<[a := Live st (reading [])]> (heap w)) w).
Proof.
  induction fuel as [|fuel IH]; intros avail n_lines line this w a st His Hcell Hfuel;
    [lia|].
  simpl. rewrite His.
  destruct (split_line avail) as [l [rest|]] eqn:Hsl.
  - rewrite (getline_line a st avail w Hcell line l rest Hsl); simpl.
    destruct (split_line_rest avail l rest Hsl) as [Hlen Hlines].
    rewrite (IH rest _ _ _ _ a st); simpl;
      [| reflexivity | apply lookup_insert_eq | lia].
    unfold split_lines at 2. rewrite (Hlines []). cbn [app length].
    rewrite with_heap_twice, insert_insert_eq, Nat.iter_succ_r.
    reflexivity.
  - destruct (split_line_last avail l Hsl) as [Hnil Hlines].
    unfold split_lines. rewrite (Hlines []); simpl.
    destruct (decide (l = [])) as [->|Hl].
    + rewrite (getline_end a st avail w Hcell line Hsl); simpl. reflexivity.
    + rewrite (getline_last a st avail w Hcell line l Hsl Hl); simpl.
      rewrite bool_decide_eq_false_2 by exact Hl.
      destruct fuel as [|fuel]; [lia|]. simpl. reflexivity.
Qed.

(** The caller's loop returns the lines of the remaining input. *)
Lemma getlines_spec : forall fuel avail lines line this w a st,
  In.is_ this = mk_ios (heap_buf a) goodbit ->
  heap w !! a = Some (Live st (reading avail)) ->
  length avail + 2 <= fuel ->
  exists this' w',
    In.getlines fuel lines line this w =
      Some (Normal (lines ++ split_lines avail), this', w').
Proof.
  induction fuel as [|fuel IH]; intros avail lines line this w a st His Hcell Hfuel;
    [lia|].
  simpl. unfold In.stream. rewrite His.
  destruct (split_line avail) as [l [rest|]] eqn:Hsl.
  - rewrite (getline_line a st avail w Hcell line l rest Hsl); simpl.
    destruct (split_line_rest avail l rest Hsl) as [Hlen Hlines].
    destruct (IH rest (lines ++ [l]) l
                (In.with_is (mk_ios (heap_buf a) goodbit) this)
                (with_heap (<[a := Live st (reading rest)]> (heap w)) w) a st)
      as (this' & w' & ->); [reflexivity | apply lookup_insert_eq | lia |].
    unfold split_lines at 2. rewrite (Hlines []); simpl.
    rewrite <- app_assoc. eauto.
  - destruct (split_line_last avail l Hsl) as [Hnil Hlines].
    unfold split_lines. rewrite (Hlines []); simpl.
    destruct (decide (l = [])) as [->|Hl].
    + rewrite (getline_end a st avail w Hcell line Hsl); simpl.
      rewrite app_nil_r. eauto.
    + rewrite (getline_last a st avail w Hcell line l Hsl Hl); simpl.
      rewrite bool_decide_eq_false_2 by exact Hl.
      destruct fuel as [|fuel]; [lia|]. simpl. eauto.
Qed.

(** [In(filename)] on a readable file: the handle owns a fresh stream on the
    decoded content and its view is good. *)
Lemma In_of_file_spec filename (w : World) raw :
  readable filename w = Some raw ->
  exists p w1,
    In.of_file filename w =
      (Normal (In.mk (Some p) (mk_ios (heap_buf p) goodbit) filename), w1) /\
    heap w1 !! p = Some (Live goodbit (reading (decompress raw))) /\
    disk w1 = disk w /\ resolve w1 = resolve w.
Proof.
  intros Hraw. unfold In.of_file, In.construct. rewrite In_open_unfold.
  set (this := In.with_myfile filename _).
  assert (In.valid this w) as Hvalid by (intros a0 [=]).
  pose proof (In_reset_state_spec filename this w Hvalid) as H.
  destruct (new_ifstream filename w) as [p w1].
  destruct H as (st & sb & w2 & _ & -> & Hp & _ & Hst & Hdisk & Hres & Hw2).
  rewrite Hraw in Hst. destruct Hst as [-> ->]. simpl.
  rewrite (Hw2 eq_refl) in *. eauto 10.
Qed.

(** [count_lines] on a handle whose view reads its own stream: the count is
    the number of lines that were left, and the handle ends on a fresh
    stream at the start of the file. *)
Lemma In_count_lines_spec T fuel this (w : World) a st avail raw :
  In.byname this = Some a ->
  In.is_ this = mk_ios (heap_buf a) goodbit ->
  heap w !! a = Some (Live st (reading avail)) ->
  readable (In.myfile this) w = Some raw ->
  length avail + 2 <= fuel ->
  exists p w',
    In.count_lines T fuel this w =
      Some (Normal (wrap T (Z.of_nat (length (split_lines avail)))),
            In.mk (Some p) (mk_ios (heap_buf p) goodbit) (In.myfile this), w') /\
    heap w' !! p = Some (Live goodbit (reading (decompress raw))).
Proof.
  intros Hby His Hcell Hraw Hfuel. unfold In.count_lines.
  rewrite (count_loop_spec T fuel avail _ _ this w a st His Hcell Hfuel).
  rewrite wrap_iter.
  set (this1 := In.with_is _ this). set (w1 := with_heap _ w).
  assert (In.valid this1 w1) as Hvalid.
  { intros a0 Ha0. simpl in Ha0. rewrite Hby in Ha0. injection Ha0 as <-.
    exists st, (reading []). apply lookup_insert_eq. }
  pose proof (In_reset_state_spec (In.myfile this1) this1 w1 Hvalid) as H.
  unfold bind. rewrite In_rewind_unfold.
  destruct (new_ifstream (In.myfile this1) w1) as [p w2].
  destruct H as (st' & sb' & w3 & _ & -> & Hp & _ & Hst & _).
  change (readable (In.myfile this1) w1) with (readable (In.myfile this) w) in Hst.
  rewrite Hraw in Hst. destruct Hst as [-> ->]. simpl. eauto.
Qed.

(** C2 (amended).  On the handle [In(filename)] of a readable file,
    [count_lines<T>()] returns, as a [T], the number of newline characters
    of the content plus one when the content ends in a line without a
    newline; after it the view is good and the next byte it delivers is the
    first byte of the content. *)
Theorem count_lines_counts_lines_and_rewinds T filename (w : World) raw :
  readable filename w = Some raw ->
  exists this1 w1,
    In.of_file filename w = (Normal this1, w1) /\
    forall fuel, length (decompress raw) + 2 <= fuel ->
      exists this2 w2,
        In.count_lines T fuel this1 w1 =
          Some (Normal (wrap T (Z.of_nat
                  (count_newlines (decompress raw) +
                   (if unterminated (decompress raw) then 1 else 0)))),
                this2, w2) /\
        good (In.stream this2) = true /\
        In.filename this2 = filename /\
        In.upcoming this2 w2 = Some (decompress raw).
Proof.
  intros Hraw.
  destruct (In_of_file_spec filename w raw Hraw) as (p & w1 & Hof & Hp & Hdisk & Hres).
  eexists _, w1. split; [exact Hof|]. intros fuel Hfuel.
  set (this1 := In.mk (Some p) (mk_ios (heap_buf p) goodbit) filename) in *.
  assert (readable (In.myfile this1) w1 = Some raw) as Hraw1.
  { unfold readable in *. simpl. rewrite Hdisk, Hres. exact Hraw. }
  destruct (In_count_lines_spec T fuel this1 w1 p goodbit (decompress raw) raw
              eq_refl eq_refl Hp Hraw1 Hfuel) as (p' & w2 & Hcount & Hp').
  rewrite length_split_lines in Hcount.
  eexists _, w2. split; [exact Hcount|]. simpl.
  repeat split. unfold In.upcoming; simpl. rewrite Hp'. reflexivity.
Qed.

(** C7.  On the handle [In(filename)] of a readable file, reading all
    lines after [count_lines] gives the lines that reading all lines at once
    gives: the lines of the content. *)
Theorem count_lines_then_read_same_lines T filename (w : World) raw :
  readable filename w = Some raw ->
  exists this1 w1,
    In.of_file filename w = (Normal this1, w1) /\
    forall fuel, length (decompress raw) + 2 <= fuel ->
      exists n this2 w2 thisA wA thisB wB,
        In.count_lines T fuel this1 w1 = Some (Normal n, this2, w2) /\
        In.getlines fuel [] [] this2 w2 =
          Some (Normal (split_lines (decompress raw)), thisA, wA) /\
        In.getlines fuel [] [] this1 w1 =
          Some (Normal (split_lines (decompress raw)), thisB, wB).
Proof.
  intros Hraw.
  destruct (In_of_file_spec filename w raw Hraw) as (p & w1 & Hof & Hp & Hdisk & Hres).
  eexists _, w1. split; [exact Hof|]. intros fuel Hfuel.
  set (this1 := In.mk (Some p) (mk_ios (heap_buf p) goodbit) filename) in *.
  assert (readable (In.myfile this1) w1 = Some raw) as Hraw1.
  { unfold readable in *. simpl. rewrite Hdisk, Hres. exact Hraw. }
  destruct (In_count_lines_spec T fuel this1 w1 p goodbit (decompress raw) raw
              eq_refl eq_refl Hp Hraw1 Hfuel) as (p' & w2 & Hcount & Hp').
  destruct (getlines_spec fuel (decompress raw) [] []
              (In.mk (Some p') (mk_ios (heap_buf p') goodbit) (In.myfile this1))
              w2 p' goodbit eq_refl Hp' Hfuel) as (thisA & wA & HA).
  destruct (getlines_spec fuel (decompress raw) [] [] this1 w1 p goodbit
              eq_refl Hp Hfuel) as (thisB & wB & HB).
  eexists _, _, w2, thisA, wA, thisB, wB. eauto.
Qed.

(** *** Writing and reading back *)

(** [Out::open] and [Out::open_compressed] on a valid handle: the handle
    owns a fresh stream and the view has its buffer and its state; when the
    file cannot be opened the call throws, with the view failed. *)
Lemma Out_open_spec filename this (w : World) :
  Out.valid this w ->
  exists p w1,
    Out.open filename this w =
      (if can_write filename w then Normal tt else Raise (file_not_writable filename),
       Out.mk (Some p)
              (mk_ios (heap_buf p) (if can_write filename w then goodbit else failbit))
              (Out.myfile this),
       w1) /\
    heap w1 !! p =
      Some (if can_write filename w
            then Live goodbit (writing (resolve w filename) None [])
            else Live failbit unopened).
Proof.
  intros [Hown Hview].
  destruct (ostream_flush_alive (Out.os this) w Hview)
    as (s1 & w1 & Hflush & _ & Hheap & _ & Hden).
  destruct (ostream_flush_frame _ _ _ _ Hflush) as (_ & Hres & _).
  destruct (new_ofstream_spec filename None w1)
    as (p & w2 & Hnew & Hfresh & Hheap2 & Hdisk2 & Hoff & Hres2 & _).
  assert (can_write filename w1 = can_write filename w) as Hcan1
    by (unfold can_write; rewrite Hden; reflexivity).
  rewrite Hcan1, Hres, Hheap in Hheap2. rewrite Hcan1, Hres in Hdisk2.
  rewrite Hcan1 in Hoff. rewrite Hheap in Hfresh. rewrite Hres in Hres2.
  unfold Out.open, Out.open_compressed, bind, Out.os_flush, Out.new_stream,
    Out.byname_reset, Out.byname_rdbuf, Out.os_rdbuf, Out.byname_rdstate,
    Out.os_setstate, Out.os_not, throw, ret.
  rewrite Hflush; simpl. rewrite Hnew; simpl.
  destruct (Out.byname this) as [old|] eqn:Hby; simpl.
  - destruct (Hown old eq_refl) as (st0 & sb0 & Hold).
    assert (old <> p) as Hne by (intros ->; congruence).
    assert (alive old w2) as Hal
      by (unfold alive; rewrite Hheap2, lookup_insert_ne by congruence; eauto).
    destruct (delete_stream_alive old w2 Hal) as (w3 & -> & Hheap3 & _).
    simpl. unfold stream_rdstate.
    rewrite Hheap3, lookup_insert_ne, Hheap2, lookup_insert_eq by congruence.
    destruct (can_write filename w); simpl;
      rewrite set_rdbuf_setstate by reflexivity; simpl;
      exists p, w3; (split; [reflexivity|]);
      rewrite Hheap3, lookup_insert_ne, Hheap2 by congruence; apply lookup_insert_eq.
  - unfold stream_rdstate. rewrite Hheap2, lookup_insert_eq.
    destruct (can_write filename w); simpl;
      rewrite set_rdbuf_setstate by reflexivity; simpl;
      exists p, w2; (split; [reflexivity|]); rewrite Hheap2; apply lookup_insert_eq.
Qed.

Lemma Out_open_compressed_spec filename type level this (w : World) :
  Out.valid this w ->
  exists p w1,
    Out.open_compressed filename type level this w =
      (if can_write filename w then Normal tt else Raise (file_not_writable filename),
       Out.mk (Some p)
              (mk_ios (heap_buf p) (if can_write filename w then goodbit else failbit))
              (Out.myfile this),
       w1) /\
    heap w1 !! p =
      Some (if can_write filename w
            then Live goodbit (writing (resolve w filename) (Some (type, level)) [])
            else Live failbit unopened).
Proof.
  intros [Hown Hview].
  destruct (ostream_flush_alive (Out.os this) w Hview)
    as (s1 & w1 & Hflush & _ & Hheap & _ & Hden).
  destruct (ostream_flush_frame _ _ _ _ Hflush) as (_ & Hres & _).
  destruct (new_ofstream_spec filename (Some (type, level)) w1)
    as (p & w2 & Hnew & Hfresh & Hheap2 & Hdisk2 & Hoff & Hres2 & _).
  assert (can_write filename w1 = can_write filename w) as Hcan1
    by (unfold can_write; rewrite Hden; reflexivity).
  rewrite Hcan1, Hres, Hheap in Hheap2. rewrite Hcan1, Hres in Hdisk2.
  rewrite Hcan1 in Hoff. rewrite Hheap in Hfresh. rewrite Hres in Hres2.
  unfold Out.open, Out.open_compressed, bind, Out.os_flush, Out.new_stream,
    Out.byname_reset, Out.byname_rdbuf, Out.os_rdbuf, Out.byname_rdstate,
    Out.os_setstate, Out.os_not, throw, ret.
  rewrite Hflush; simpl. rewrite Hnew; simpl.
  destruct (Out.byname this) as [old|] eqn:Hby; simpl.
  - destruct (Hown old eq_refl) as (st0 & sb0 & Hold).
    assert (old <> p) as Hne by (intros ->; congruence).
    assert (alive old w2) as Hal
      by (unfold alive; rewrite Hheap2, lookup_insert_ne by congruence; eauto).
    destruct (delete_stream_alive old w2 Hal) as (w3 & -> & Hheap3 & _).
    simpl. unfold stream_rdstate.
    rewrite Hheap3, lookup_insert_ne, Hheap2, lookup_insert_eq by congruence.
    destruct (can_write filename w); simpl;
      rewrite set_rdbuf_setstate by reflexivity; simpl;
      exists p, w3; (split; [reflexivity|]);
      rewrite Hheap3, lookup_insert_ne, Hheap2 by congruence; apply lookup_insert_eq.
  - unfold stream_rdstate. rewrite Hheap2, lookup_insert_eq.
    destruct (can_write filename w); simpl;
      rewrite set_rdbuf_setstate by reflexivity; simpl;
      exists p, w2; (split; [reflexivity|]); rewrite Hheap2; apply lookup_insert_eq.
Qed.

(** The same calls with the name writable, on a handle that does not hold
    a writer on the file the name denotes: the file is empty and the new
    writer stands at its start. *)
Lemma Out_open_fresh filename this (w : World) :
  Out.valid this w -> can_write filename w = true ->
  (forall a st file kind sent,
     Out.byname this = Some a ->
     heap w !! a = Some (Live st (writing file kind sent)) ->
     file <> resolve w filename) ->
  exists p w1,
    Out.open filename this w =
      (Normal tt, Out.mk (Some p) (mk_ios (heap_buf p) goodbit) (Out.myfile this), w1) /\
    heap w1 !! p = Some (Live goodbit (writing (resolve w filename) None [])) /\
    offset_of p w1 = 0 /\
    disk w1 !! resolve w filename = Some [] /\
    resolve w1 = resolve w.
Proof.
  intros [Hown Hview] Hcan Hnot.
  destruct (ostream_flush_alive (Out.os this) w Hview)
    as (s1 & w1 & Hflush & _ & Hheap & _ & Hden).
  destruct (ostream_flush_frame _ _ _ _ Hflush) as (_ & Hres & _).
  destruct (new_ofstream_spec filename None w1)
    as (p & w2 & Hnew & Hfresh & Hheap2 & Hdisk2 & Hoff & Hres2 & _).
  assert (can_write filename w1 = can_write filename w) as Hcan1
    by (unfold can_write; rewrite Hden; reflexivity).
  rewrite Hcan1, Hres, Hheap in Hheap2. rewrite Hcan1, Hres in Hdisk2.
  rewrite Hcan1 in Hoff. rewrite Hheap in Hfresh. rewrite Hres in Hres2.
  unfold Out.open, Out.open_compressed, bind, Out.os_flush, Out.new_stream,
    Out.byname_reset, Out.byname_rdbuf, Out.os_rdbuf, Out.byname_rdstate,
    Out.os_setstate, Out.os_not, throw, ret.
  rewrite Hflush; simpl. rewrite Hnew; simpl.
  rewrite Hcan in Hheap2, Hdisk2. specialize (Hoff Hcan).
  destruct (Out.byname this) as [old|] eqn:Hby; simpl.
  - destruct (Hown old eq_refl) as (st0 & sb0 & Hold).
    assert (old <> p) as Hne by (intros ->; congruence).
    assert (heap w2 !! old = Some (Live st0 sb0)) as Hold2
      by (rewrite Hheap2, lookup_insert_ne by congruence; exact Hold).
    destruct (delete_stream_alive old w2 (ex_intro _ _ (ex_intro _ _ Hold2)))
      as (w3 & Hdel & Hheap3 & _ & _ & Hdisk3).
    destruct (delete_stream_frame old w2 w3 Hdel) as (_ & _ & _ & _ & Hres3 & Hoff3).
    rewrite Hdel; simpl. unfold stream_rdstate.
    rewrite Hheap3, lookup_insert_ne, Hheap2, lookup_insert_eq by congruence.
    simpl. rewrite set_rdbuf_setstate by reflexivity. simpl.
    exists p, w3. split; [reflexivity|].
    split; [rewrite Hheap3, lookup_insert_ne, Hheap2 by congruence;
            apply lookup_insert_eq|].
    split; [unfold offset_of; rewrite Hoff3, Hoff; reflexivity|].
    split; [|congruence].
    rewrite Hold2 in Hdisk3.
    destruct sb0 as [avail|path kind0 sent|]; rewrite Hdisk3.
    + rewrite Hdisk2. apply lookup_insert_eq.
    + rewrite disk_write_other by (apply (Hnot old st0 path kind0 sent eq_refl Hold)).
      rewrite Hdisk2. apply lookup_insert_eq.
    + rewrite Hdisk2. apply lookup_insert_eq.
  - unfold stream_rdstate. rewrite Hheap2, lookup_insert_eq. simpl.
    rewrite set_rdbuf_setstate by reflexivity. simpl.
    exists p, w2. split; [reflexivity|].
    split; [rewrite Hheap2; apply lookup_insert_eq|].
    split; [unfold offset_of; rewrite Hoff; reflexivity|].
    split; [rewrite Hdisk2; apply lookup_insert_eq | exact Hres2].
Qed.

Lemma Out_open_compressed_fresh filename type level this (w : World) :
  Out.valid this w -> can_write filename w = true ->
  (forall a st file kind sent,
     Out.byname this = Some a ->
     heap w !! a = Some (Live st (writing file kind sent)) ->
     file <> resolve w filename) ->
  exists p w1,
    Out.open_compressed filename type level this w =
      (Normal tt, Out.mk (Some p) (mk_ios (heap_buf p) goodbit) (Out.myfile this), w1) /\
    heap w1 !! p =
      Some (Live goodbit (writing (resolve w filename) (Some (type, level)) [])) /\
    offset_of p w1 = 0 /\
    disk w1 !! resolve w filename = Some [] /\
    resolve w1 = resolve w.
Proof.
  intros [Hown Hview] Hcan Hnot.
  destruct (ostream_flush_alive (Out.os this) w Hview)
    as (s1 & w1 & Hflush & _ & Hheap & _ & Hden).
  destruct (ostream_flush_frame _ _ _ _ Hflush) as (_ & Hres & _).
  destruct (new_ofstream_spec filename (Some (type, level)) w1)
    as (p & w2 & Hnew & Hfresh & Hheap2 & Hdisk2 & Hoff & Hres2 & _).
  assert (can_write filename w1 = can_write filename w) as Hcan1
    by (unfold can_write; rewrite Hden; reflexivity).
  rewrite Hcan1, Hres, Hheap in Hheap2. rewrite Hcan1, Hres in Hdisk2.
  rewrite Hcan1 in Hoff. rewrite Hheap in Hfresh. rewrite Hres in Hres2.
  unfold Out.open, Out.open_compressed, bind, Out.os_flush, Out.new_stream,
    Out.byname_reset, Out.byname_rdbuf, Out.os_rdbuf, Out.byname_rdstate,
    Out.os_setstate, Out.os_not, throw, ret.
  rewrite Hflush; simpl. rewrite Hnew; simpl.
  rewrite Hcan in Hheap2, Hdisk2. specialize (Hoff Hcan).
  destruct (Out.byname this) as [old|] eqn:Hby; simpl.
  - destruct (Hown old eq_refl) as (st0 & sb0 & Hold).
    assert (old <> p) as Hne by (intros ->; congruence).
    assert (heap w2 !! old = Some (Live st0 sb0)) as Hold2
      by (rewrite Hheap2, lookup_insert_ne by congruence; exact Hold).
    destruct (delete_stream_alive old w2 (ex_intro _ _ (ex_intro _ _ Hold2)))
      as (w3 & Hdel & Hheap3 & _ & _ & Hdisk3).
    destruct (delete_stream_frame old w2 w3 Hdel) as (_ & _ & _ & _ & Hres3 & Hoff3).
    rewrite Hdel; simpl. unfold stream_rdstate.
    rewrite Hheap3, lookup_insert_ne, Hheap2, lookup_insert_eq by congruence.
    simpl. rewrite set_rdbuf_setstate by reflexivity. simpl.
    exists p, w3. split; [reflexivity|].
    split; [rewrite Hheap3, lookup_insert_ne, Hheap2 by congruence;
            apply lookup_insert_eq|].
    split; [unfold offset_of; rewrite Hoff3, Hoff; reflexivity|].
    split; [|congruence].
    rewrite Hold2 in Hdisk3.
    destruct sb0 as [avail|path kind0 sent|]; rewrite Hdisk3.
    + rewrite Hdisk2. apply lookup_insert_eq.
    + rewrite disk_write_other by (apply (Hnot old st0 path kind0 sent eq_refl Hold)).
      rewrite Hdisk2. apply lookup_insert_eq.
    + rewrite Hdisk2. apply lookup_insert_eq.
  - unfold stream_rdstate. rewrite Hheap2, lookup_insert_eq. simpl.
    rewrite set_rdbuf_setstate by reflexivity. simpl.
    exists p, w2. split; [reflexivity|].
    split; [rewrite Hheap2; apply lookup_insert_eq|].
    split; [unfold offset_of; rewrite Hoff; reflexivity|].
    split; [rewrite Hdisk2; apply lookup_insert_eq | exact Hres2].
Qed.

(** *** The handles stay valid *)

Lemma Out_default_valid (w : World) : Out.valid Out.default w.
Proof. split; intros a Ha; discriminate. Qed.

Lemma Out_open_valid filename this (w : World) :
  Out.valid this w ->
  Out.valid (Out.open filename this w).1.2 (Out.open filename this w).2.
Proof.
  intros Hvalid.
  destruct (Out_open_spec filename this w Hvalid) as (p & w1 & -> & Hp).
  split; simpl; intros a [= <-]; unfold alive;
    destruct (can_write filename w); eauto.
Qed.

Lemma Out_open_compressed_valid filename type level this (w : World) :
  Out.valid this w ->
  Out.valid (Out.open_compressed filename type level this w).1.2
            (Out.open_compressed filename type level this w).2.
Proof.
  intros Hvalid.
  destruct (Out_open_compressed_spec filename type level this w Hvalid)
    as (p & w1 & -> & Hp).
  split; simpl; intros a [= <-]; unfold alive;
    destruct (can_write filename w); eauto.
Qed.

Lemma Out_close_valid this (w : World) :
  Out.valid this w -> Out.valid (Out.close this w).1.2 (Out.close this w).2.
Proof.
  intros Hvalid. destruct (Out_close_spec this w Hvalid) as (w' & -> & _).
  split; simpl; intros a Ha; discriminate.
Qed.

Lemma In_default_valid (w : World) : In.valid In.default w.
Proof. intros a Ha; discriminate. Qed.

Lemma In_rewind_valid this (w : World) :
  In.valid this w -> In.valid (In.rewind this w).1.2 (In.rewind this w).2.
Proof.
  intros Hvalid. rewrite In_rewind_unfold.
  pose proof (In_reset_state_spec (In.myfile this) this w Hvalid) as H.
  destruct (new_ifstream (In.myfile this) w) as [p w1].
  destruct H as (st & sb & w2 & _ & -> & Hp & _).
  intros a [= <-]. unfold alive. simpl. eauto.
Qed.

Lemma In_open_valid filename this (w : World) :
  In.valid this w ->
  In.valid (In.open filename this w).1.2 (In.open filename this w).2.
Proof.
  intros Hvalid. rewrite In_open_unfold.
  assert (In.valid (In.with_myfile filename this) w) as Hvalid' by exact Hvalid.
  pose proof (In_reset_state_spec filename _ w Hvalid') as H.
  destruct (new_ifstream filename w) as [p w1].
  destruct H as (st & sb & w2 & _ & -> & Hp & _).
  destruct (fail _); intros a [= <-]; unfold alive; simpl; eauto.
Qed.

(** The sibling of [In::open]: [Out::open] on a name that cannot be written
    throws the exception of the taxonomy and leaves the view failed. *)
Lemma Out_open_denied filename this (w : World) :
  Out.valid this w -> can_write filename w = false ->
  (Out.open filename this w).1.1 = Raise (file_not_writable filename) /\
  fail (Out.stream (Out.open filename this w).1.2) = true.
Proof.
  intros Hvalid Hcan.
  destruct (Out_open_spec filename this w Hvalid) as (p & w1 & -> & _).
  rewrite Hcan. split; reflexivity.
Qed.

(** One piece written through a good view on a live writer is appended to
    what the writer has accepted. *)
Lemma Out_shl_write type_name chunk this (w : World) p st path kind sent :
  Out.os this = mk_ios (heap_buf p) goodbit ->
  heap w !! p = Some (Live st (writing path kind sent)) ->
  Out.shl type_name ostream_write chunk this w =
    (Normal tt, this,
     with_heap (<[p := Live st (writing path kind (sent ++ chunk))]> (heap w)) w).
Proof.
  intros Hos Hp.
  unfold Out.shl, bind, Out.stream_insert, Out.stream, ostream_write, sputn, throw, ret.
  rewrite Hos; simpl. rewrite Hp; simpl.
  destruct this as [by_ os_ f]; simpl in *. subst os_. reflexivity.
Qed.

Lemma write_all_spec type_name chunks : forall this (w : World) p st path kind sent,
  Out.os this = mk_ios (heap_buf p) goodbit ->
  heap w !! p = Some (Live st (writing path kind sent)) ->
  exists w',
    write_all type_name chunks this w = (Normal tt, this, w') /\
    heap w' !! p = Some (Live st (writing path kind (sent ++ concat chunks))) /\
    disk w' = disk w /\ offsets w' = offsets w /\ resolve w' = resolve w.
Proof.
  induction chunks as [|chunk chunks IH]; intros this w p st path kind sent Hos Hp; simpl.
  - exists w. rewrite app_nil_r. split; [reflexivity|]. split; [exact Hp|]. auto.
  - unfold bind. rewrite (Out_shl_write type_name chunk this w p st path kind sent Hos Hp).
    destruct (IH this (with_heap (<[p := Live st (writing path kind (sent ++ chunk))]> (heap w)) w)
                p st path kind (sent ++ chunk) Hos)
      as (w' & -> & Hp' & Hdisk & Hoff & Hres).
    { apply lookup_insert_eq. }
    exists w'. rewrite app_assoc. split; [reflexivity|]. split; [exact Hp'|]. auto.
Qed.

Lemma offset_of_insert p n o (w : World) :
  offset_of p (with_offsets (<[p := n]> o) w) = n.
Proof. unfold offset_of. simpl. rewrite lookup_insert_eq. reflexivity. Qed.

(** [close()] on a handle whose good view writes its own stream, the file
    holding what that stream has put there: the file ends as the image of all
    the bytes the stream accepted. *)
Lemma Out_close_writer this (w : World) p st file kind sent flushed :
  Out.byname this = Some p ->
  Out.os this = mk_ios (heap_buf p) goodbit ->
  heap w !! p = Some (Live st (writing file kind sent)) ->
  disk w !! file = Some flushed ->
  offset_of p w = length flushed ->
  match kind with
  | None => exists pending, sent = flushed ++ pending
  | Some _ => flushed = []
  end ->
  exists this' w',
    Out.close this w = (Normal tt, this', w') /\
    disk w' !! file = Some (image kind sent) /\
    resolve w' = resolve w.
Proof.
  intros Hby Hos Hp Hfile Hoff Hkind.
  unfold Out.close, bind, Out.os_flush, Out.byname_reset, Out.os_rdbuf,
    Out.cout_state, Out.os_setstate, ostream_flush, pubsync.
  rewrite Hos; simpl. rewrite Hp. destruct kind as [[type level]|]; simpl.
  - subst flushed. rewrite Hby. unfold delete_stream. rewrite Hp. simpl.
    eexists _, _. split; [reflexivity|]. simpl. rewrite Hoff. simpl.
    split; [apply disk_write_empty_file; exact Hfile | reflexivity].
  - destruct Hkind as [pending ->]. rewrite Hby. unfold delete_stream. simpl.
    rewrite Hp. simpl. eexists _, _. split; [reflexivity|]. simpl.
    rewrite offset_of_insert, drop_all. unfold disk_write at 1.
    rewrite bool_decide_eq_true_2 by reflexivity.
    rewrite Hoff, drop_app_length.
    split; [apply disk_write_append; exact Hfile | reflexivity].
Qed.

(** [In::open] of a readable file on a handle that owns no stream. *)
Lemma In_open_readable filename this (w : World) raw :
  In.byname this = None -> readable filename w = Some raw ->
  exists p w',
    In.open filename this w =
      (Normal tt, In.mk (Some p) (mk_ios (heap_buf p) goodbit) filename, w') /\
    heap w' !! p = Some (Live goodbit (reading (decompress raw))).
Proof.
  intros Hby Hraw. rewrite In_open_unfold.
  assert (In.valid (In.with_myfile filename this) w) as Hvalid.
  { intros a0 Ha0. simpl in Ha0. congruence. }
  pose proof (In_reset_state_spec filename (In.with_myfile filename this) w Hvalid) as H.
  destruct (new_ifstream filename w) as [p w1].
  destruct H as (st & sb & w2 & _ & -> & Hp & _ & Hst & _).
  rewrite Hraw in Hst. destruct Hst as [-> ->]. simpl. eauto.
Qed.

(** The reader is given the image only.  So a codec with a kind that
    stores the bytes as they are cannot restore every byte sequence under
    every kind, as soon as another kind changes some data which it restores:
    the image of that data, stored as it is, reads back as the data. *)
Lemma stored_image_not_restored plain type level level' data :
  (forall bs, compress plain level' bs = bs) ->
  decompress (compress type level data) = data ->
  compress type level data <> data ->
  decompress (compress plain level' (compress type level data)) <>
    compress type level data.
Proof.
  intros Hplain Hback Hchanged. rewrite Hplain, Hback.
  intros H. apply Hchanged. symmetry. exact H.
Qed.

(** C8 (amended).  Pieces of character data written after
    [open_compressed(filename, type, level)] through a handle that did not
    hold a writer on the file the name denotes, the handle then closed: the
    file holds the image the codec makes of the bytes written, in order;
    [In::open(filename)] succeeds and the view delivers what the codec reads
    from that image.  These are the bytes written exactly when the codec
    restores them from their image. *)
Theorem compressed_round_trip filename type level type_name
    (chunks : list (list byte)) (out : Out.t) (inp : In.t) (w : World) :
  Out.valid out w -> In.byname inp = None -> can_write filename w = true ->
  (forall a st file kind sent,
     Out.byname out = Some a ->
     heap w !! a = Some (Live st (writing file kind sent)) ->
     file <> resolve w filename) ->
  exists out1 w1 out2 w2 out3 w3 inp' w4,
    Out.open_compressed filename type level out w = (Normal tt, out1, w1) /\
    write_all type_name chunks out1 w1 = (Normal tt, out2, w2) /\
    Out.close out2 w2 = (Normal tt, out3, w3) /\
    disk w3 !! resolve w filename = Some (compress type level (concat chunks)) /\
    In.open filename inp w3 = (Normal tt, inp', w4) /\
    good (In.stream inp') = true /\
    In.upcoming inp' w4 = Some (decompress (compress type level (concat chunks))) /\
    (In.upcoming inp' w4 = Some (concat chunks) <->
     decompress (compress type level (concat chunks)) = concat chunks).
Proof.
  intros Hvalid Hinp Hcan Hnot.
  destruct (Out_open_compressed_fresh filename type level out w Hvalid Hcan Hnot)
    as (p & w1 & Hopen & Hp1 & Hoff1 & Hfile1 & Hres1).
  set (out1 := Out.mk (Some p) (mk_ios (heap_buf p) goodbit) (Out.myfile out)) in *.
  destruct (write_all_spec type_name chunks out1 w1 p _ _ _ _ eq_refl Hp1)
    as (w2 & Hwrite & Hp2 & Hdisk2 & Hoff2 & Hres2).
  rewrite <- Hdisk2 in Hfile1.
  assert (offset_of p w2 = length (@nil byte)) as Hoff
    by (unfold offset_of in *; rewrite Hoff2; exact Hoff1).
  destruct (Out_close_writer out1 w2 p _ _ _ _ [] eq_refl eq_refl Hp2 Hfile1 Hoff eq_refl)
    as (out3 & w3 & Hclose & Hdisk & Hres3).
  simpl in Hdisk.
  assert (readable filename w3 = Some (compress type level (concat chunks))) as Hraw.
  { unfold readable. unfold can_write in Hcan.
    destruct (decide (filename = "")) as [->|_]; [discriminate|].
    rewrite Hres3, Hres2, Hres1. exact Hdisk. }
  destruct (In_open_readable filename inp w3 _ Hinp Hraw) as (q & w4 & Hin & Hq).
  assert (In.upcoming (In.mk (Some q) (mk_ios (heap_buf q) goodbit) filename) w4 =
            Some (decompress (compress type level (concat chunks)))) as Hnext
    by (unfold In.upcoming; simpl; rewrite Hq; reflexivity).
  eexists out1, w1, out1, w2, out3, w3, _, w4.
  split; [exact Hopen|]. split; [exact Hwrite|]. split; [exact Hclose|].
  split; [exact Hdisk|]. split; [exact Hin|]. split; [reflexivity|].
  split; [exact Hnext|]. rewrite Hnext. split; congruence.
Qed.

(** *** What one call changes *)

(** [reset_state] in full: the new stream object takes an address not in
    use, the stream owned before is destroyed, and nothing else in the store,
    on the disk (the handle owning no writer) or on the console changes. *)
Lemma In_reset_state_full filename this (w : World) :
  In.valid this w ->
  exists p st sb w2,
    heap w !! p = None /\
    match readable filename w with
    | Some raw => st = goodbit /\ sb = reading (decompress raw)
    | None => st = failbit /\ sb = unopened
    end /\
    In.reset_state filename this w =
      (Normal tt, In.mk (Some p) (mk_ios (heap_buf p) st) (In.myfile this), w2) /\
    heap w2 = match In.byname this with
              | Some old => <[old := Freed]> (<[p := Live st sb]> (heap w))
              | None => <[p := Live st sb]> (heap w)
              end /\
    disk w2 = match In.byname this with
              | Some old =>
                  match heap w !! old with
                  | Some (Live _ (writing path kind sent)) =>
                      disk_write path (offset_of old w)
                        (drop (offset_of old w) (image kind sent)) (disk w)
                  | _ => disk w
                  end
              | None => disk w
              end /\
    console_in w2 = console_in w /\ console_out w2 = console_out w /\
    denied w2 = denied w /\ resolve w2 = resolve w.
Proof.
  intros Hvalid.
  set (p := fresh (dom (heap w))).
  assert (heap w !! p = None) as Hfresh by (apply not_elem_of_dom, is_fresh).
  assert (exists st sb,
            new_ifstream filename w = (p, with_heap (<[p := Live st sb]> (heap w)) w) /\
            match readable filename w with
            | Some raw => st = goodbit /\ sb = reading (decompress raw)
            | None => st = failbit /\ sb = unopened
            end) as (st & sb & Hnew & Hst).
  { unfold new_ifstream, alloc.
    destruct (readable filename w); eexists _, _; (split; [reflexivity|]); auto. }
  exists p, st, sb. unfold_In. rewrite Hnew; simpl.
  destruct (In.byname this) as [old|] eqn:Hby; simpl.
  - destruct (Hvalid old Hby) as (st0 & sb0 & Hold).
    assert (p <> old) as Hne by (intros ->; rewrite Hfresh in Hold; discriminate).
    unfold delete_stream; simpl. rewrite lookup_insert_ne by exact Hne. rewrite Hold.
    destruct sb0 as [avail|path kind sent|]; simpl; unfold stream_rdstate; simpl;
      rewrite lookup_insert_ne, lookup_insert_eq by congruence; simpl;
      rewrite set_rdbuf_setstate by reflexivity;
      eexists; repeat split; auto.
  - unfold stream_rdstate; simpl. rewrite lookup_insert_eq; simpl.
    rewrite set_rdbuf_setstate by reflexivity.
    eexists; repeat split; auto.
Qed.

(** X1.  [In::open] on a valid handle, whatever state its view is in: the name is
    stored, the stream owned before is destroyed, and the call returns with a
    good view at the start of the content exactly when the file can be read;
    otherwise it throws, the view failed and delivering nothing. *)
Theorem In_open_outcome filename this (w : World) :
  In.valid this w ->
  let '(r, this', w') := In.open filename this w in
  In.filename this' = filename /\
  In.valid this' w' /\
  match In.byname this with Some old => heap w' !! old = Some Freed | None => True end /\
  match readable filename w with
  | Some raw =>
      r = Normal tt /\ good (In.stream this') = true /\
      In.upcoming this' w' = Some (decompress raw)
  | None =>
      r = Raise (runtime_error ("Cannot read from file: " +:+ filename +:+ ".")) /\
      fail (In.stream this') = true /\ In.upcoming this' w' = Some []
  end.
Proof.
  intros Hvalid. rewrite In_open_unfold.
  assert (In.valid (In.with_myfile filename this) w) as Hvalid' by exact Hvalid.
  destruct (In_reset_state_full filename _ w Hvalid')
    as (p & st & sb & w2 & Hfresh & Hst & -> & Hheap & _).
  simpl in Hheap.
  assert (heap w2 !! p = Some (Live st sb)) as Hp.
  { rewrite Hheap. destruct (In.byname this) as [old|] eqn:Hby.
    - destruct (Hvalid old Hby) as (st0 & sb0 & Hold).
      rewrite lookup_insert_ne; [apply lookup_insert_eq|].
      intros ->. rewrite Hfresh in Hold. discriminate.
    - apply lookup_insert_eq. }
  assert (match In.byname this with
          | Some old => heap w2 !! old = Some Freed | None => True end) as Hold.
  { rewrite Hheap. destruct (In.byname this); [apply lookup_insert_eq | exact I]. }
  destruct (readable filename w) as [raw|]; destruct Hst as [-> ->]; simpl;
    (split; [reflexivity|]); (split; [intros a [= <-]; unfold alive; eauto|]);
    (split; [exact Hold|]); unfold In.upcoming; simpl; rewrite Hp; auto.
Qed.

(** X2.  [In(filename)] for a file that cannot be read throws and leaves nothing
    behind: the stream it made is destroyed again, no other stream object and
    nothing on disk has changed. *)
Theorem In_of_file_unreadable_leaves_nothing filename (w : World) :
  readable filename w = None ->
  exists w',
    In.of_file filename w =
      (Raise (runtime_error ("Cannot read from file: " +:+ filename +:+ ".")), w') /\
    disk w' = disk w /\
    (forall a, alive a w' <-> alive a w) /\
    (forall a, is_Some (heap w !! a) -> heap w' !! a = heap w !! a).
Proof.
  intros Hno. unfold In.of_file, In.construct. rewrite In_open_unfold.
  set (this := In.with_myfile filename _).
  assert (In.valid this w) as Hvalid by (intros a0 [=]).
  destruct (In_reset_state_full filename this w Hvalid)
    as (p & st & sb & w2 & Hfresh & Hst & -> & Hheap & Hdisk & _).
  rewrite Hno in Hst. destruct Hst as [-> ->]. simpl in *.
  unfold In.byname_reset; simpl. unfold delete_stream. rewrite Hheap, lookup_insert_eq.
  simpl. eexists. split; [reflexivity|]. simpl. split; [exact Hdisk|].
  rewrite insert_insert_eq. split.
  - intros a. unfold alive; simpl. destruct (decide (a = p)) as [->|Hne].
    + rewrite lookup_insert_eq, Hfresh. split; intros (? & ? & [=]).
    + rewrite lookup_insert_ne by congruence. reflexivity.
  - intros a [x Ha]. apply lookup_insert_ne. intros <-. congruence.
Qed.

Lemma readable_same_disk filename (w w' : World) :
  disk w' = disk w -> resolve w' = resolve w ->
  readable filename w' = readable filename w.
Proof. intros H Hres. unfold readable. rewrite H, Hres. reflexivity. Qed.

(** [rewind] on a handle that owns an input stream, wherever that stream
    stands and whatever the view is attached to. *)
Lemma In_rewind_reading this (w : World) a st avail raw :
  In.byname this = Some a ->
  heap w !! a = Some (Live st (reading avail)) ->
  readable (In.myfile this) w = Some raw ->
  exists p w',
    In.rewind this w =
      (Normal tt, In.mk (Some p) (mk_ios (heap_buf p) goodbit) (In.myfile this), w') /\
    heap w' !! p = Some (Live goodbit (reading (decompress raw))) /\
    heap w' !! a = Some Freed /\
    disk w' = disk w /\ resolve w' = resolve w.
Proof.
  intros Hby Hcell Hraw. rewrite In_rewind_unfold.
  assert (In.valid this w) as Hvalid.
  { intros a0 Ha0. rewrite Hby in Ha0. injection Ha0 as <-. unfold alive. eauto. }
  destruct (In_reset_state_full (In.myfile this) this w Hvalid)
    as (p & st' & sb & w2 & Hfresh & Hst & -> & Hheap & Hdisk & _ & _ & _ & Hres).
  rewrite Hraw in Hst. destruct Hst as [-> ->].
  rewrite Hby in Hheap, Hdisk. rewrite Hcell in Hdisk.
  exists p, w2. split; [reflexivity|]. rewrite Hheap. repeat split.
  - rewrite lookup_insert_ne; [apply lookup_insert_eq|].
    intros ->. rewrite Hfresh in Hcell. discriminate.
  - apply lookup_insert_eq.
  - exact Hdisk.
  - exact Hres.
Qed.

(** X3.  However often [rewind()] is called in a row, and from whatever position
    and error state, the handle ends good at the first byte of its file. *)
Theorem rewind_always_returns_to_start n : forall this (w : World) a st avail raw,
  In.byname this = Some a ->
  heap w !! a = Some (Live st (reading avail)) ->
  readable (In.myfile this) w = Some raw ->
  exists this' w',
    rewinds (S n) this w = (Normal tt, this', w') /\
    good (In.stream this') = true /\
    In.filename this' = In.filename this /\
    In.upcoming this' w' = Some (decompress raw).
Proof.
  induction n as [|n IH]; intros this w a st avail raw Hby Hcell Hraw;
    destruct (In_rewind_reading this w a st avail raw Hby Hcell Hraw)
      as (p & w1 & Hrew & Hp & _ & Hdisk & Hres).
  - cbn [rewinds]. unfold bind. rewrite Hrew.
    eexists _, w1. split; [reflexivity|]. repeat split.
    unfold In.upcoming; simpl. rewrite Hp. reflexivity.
  - change (rewinds (S (S n)) this w) with ((In.rewind ;; rewinds (S n))%cxx this w).
    unfold bind at 1. rewrite Hrew.
    edestruct (IH (In.mk (Some p) (mk_ios (heap_buf p) goodbit) (In.myfile this)) w1 p)
      as (this' & w' & -> & Hgood & Hname & Hnext); [reflexivity | exact Hp | |].
    { simpl. rewrite (readable_same_disk _ w w1 Hdisk Hres). exact Hraw. }
    exists this', w'. auto.
Qed.

(** X4.  After [close()] the view is still attached to the stream that was
    destroyed: [close] itself returns, and reading through the handle, as
    [count_lines] does, is undefined. *)
Theorem In_read_after_close_is_undefined T fuel this (w : World) a st avail :
  In.byname this = Some a ->
  In.is_ this = mk_ios (heap_buf a) goodbit ->
  heap w !! a = Some (Live st (reading avail)) ->
  exists this' w',
    In.close this w = (Normal tt, this', w') /\
    In.byname this' = None /\
    rdbuf (In.stream this') = heap_buf a /\ heap w' !! a = Some Freed /\
    In.upcoming this' w' = None /\
    In.count_lines T (S fuel) this' w' = Some (Undefined, this', w').
Proof.
  intros Hby His Hcell.
  unfold In.close, In.byname_reset. rewrite Hby. unfold delete_stream. rewrite Hcell.
  eexists _, _. split; [reflexivity|]. simpl. rewrite His. simpl.
  split; [reflexivity|]. split; [reflexivity|].
  split; [apply lookup_insert_eq|].
  unfold In.upcoming, In.count_lines, In.stream; simpl.
  unfold istream_getline; simpl. rewrite His; simpl.
  rewrite lookup_insert_eq. split; reflexivity.
Qed.

(** X5.  [close()] keeps the name, so [rewind()] after [close()] opens the file
    again: the handle is good at the first byte. *)
Theorem In_rewind_after_close_reopens this (w : World) a st avail raw :
  In.byname this = Some a ->
  heap w !! a = Some (Live st (reading avail)) ->
  readable (In.myfile this) w = Some raw ->
  exists this1 w1 this2 w2,
    In.close this w = (Normal tt, this1, w1) /\
    In.rewind this1 w1 = (Normal tt, this2, w2) /\
    good (In.stream this2) = true /\
    In.filename this2 = In.filename this /\
    In.upcoming this2 w2 = Some (decompress raw).
Proof.
  intros Hby Hcell Hraw.
  unfold In.close, In.byname_reset. rewrite Hby. unfold delete_stream. rewrite Hcell.
  set (this1 := In.with_byname None this).
  set (w1 := with_heap _ w).
  assert (In.valid this1 w1) as Hvalid by (intros a0 [=]).
  destruct (In_reset_state_full (In.myfile this1) this1 w1 Hvalid)
    as (p & st' & sb & w2 & Hfresh & Hst & Hreset & Hheap & _).
  change (readable (In.myfile this1) w1) with (readable (In.myfile this) w) in Hst.
  rewrite Hraw in Hst. destruct Hst as [-> ->].
  eexists this1, w1, _, w2. split; [reflexivity|].
  rewrite In_rewind_unfold. split; [exact Hreset|]. repeat split.
  unfold In.upcoming; simpl. rewrite Hheap; simpl. rewrite lookup_insert_eq. reflexivity.
Qed.

(** X6.  [count_lines] counts the lines that are left from where the handle
    stands, not the lines of the file, and then stands at the start of the
    file. *)
Theorem count_lines_counts_what_is_left T fuel this (w : World) a st avail raw :
  In.byname this = Some a ->
  In.is_ this = mk_ios (heap_buf a) goodbit ->
  heap w !! a = Some (Live st (reading avail)) ->
  readable (In.myfile this) w = Some raw ->
  length avail + 2 <= fuel ->
  exists this' w',
    In.count_lines T fuel this w =
      Some (Normal (wrap T (Z.of_nat (count_newlines avail +
                                      (if unterminated avail then 1 else 0)))),
            this', w') /\
    good (In.stream this') = true /\
    In.upcoming this' w' = Some (decompress raw).
Proof.
  intros Hby His Hcell Hraw Hfuel.
  destruct (In_count_lines_spec T fuel this w a st avail raw Hby His Hcell Hraw Hfuel)
    as (p & w' & Hcount & Hp).
  rewrite length_split_lines in Hcount.
  eexists _, w'. split; [exact Hcount|]. split; [reflexivity|].
  unfold In.upcoming; simpl. rewrite Hp. reflexivity.
Qed.

(** The loop of [count_lines] on a view that reads standard input. *)
Lemma count_loop_cin T : forall fuel n_lines line this (w : World),
  In.is_ this = mk_ios (static_buf std_cin) goodbit ->
  length (console_in w) + 2 <= fuel ->
  In.count_loop T fuel n_lines line this w =
    Some (Normal (Nat.iter (length (split_lines (console_in w)))
                           (fun x => wrap T (x + 1)) n_lines),
          In.with_is (mk_ios (static_buf std_cin) (Z.lor eofbit failbit)) this,
          with_console_in [] w).
Proof.
  induction fuel as [|fuel IH]; intros n_lines line this w His Hfuel; [lia|].
  simpl. rewrite His. unfold istream_getline; simpl.
  destruct (split_line (console_in w)) as [l [rest|]] eqn:Hsl; simpl.
  - destruct (split_line_rest _ l rest Hsl) as [Hlen Hlines].
    rewrite IH; [| reflexivity | simpl; lia]. simpl.
    unfold split_lines at 2. rewrite (Hlines []). cbn [app length].
    rewrite Nat.iter_succ_r. reflexivity.
  - destruct (split_line_last _ l Hsl) as [Hnil Hlines].
    unfold split_lines. rewrite (Hlines []); simpl.
    destruct (decide (l = [])) as [->|Hl]; simpl; [reflexivity|].
    rewrite !bool_decide_eq_false_2 by exact Hl. simpl.
    destruct fuel as [|fuel]; [lia|]. simpl. reflexivity.
Qed.

(** X7.  [count_lines] on a handle on standard input uses up the input, returns
    the number of its lines, and, rewinding to the empty name, leaves the
    handle on a stream that could not be opened: the view is failed and no
    longer attached to [std::cin]. *)
Theorem count_lines_detaches_stdin T fuel (w : World) :
  length (console_in w) + 2 <= fuel ->
  exists this' w',
    In.count_lines T fuel In.default w =
      Some (Normal (wrap T (Z.of_nat (length (split_lines (console_in w))))),
            this', w') /\
    console_in w' = [] /\
    In.filename this' = "" /\
    fail (In.stream this') = true /\
    rdbuf (In.stream this') <> static_buf std_cin /\
    In.upcoming this' w' = Some [].
Proof.
  intros Hfuel. unfold In.count_lines.
  rewrite (count_loop_cin T fuel 0%Z [] In.default w eq_refl Hfuel), wrap_iter.
  set (this1 := In.with_is _ In.default). set (w1 := with_console_in [] w).
  assert (In.valid this1 w1) as Hvalid by (intros a0 [=]).
  destruct (In_reset_state_full (In.myfile this1) this1 w1 Hvalid)
    as (p & st & sb & w2 & Hfresh & Hst & Hreset & Hheap & _ & Hin & _).
  simpl in Hst. destruct Hst as [-> ->].
  unfold bind. rewrite In_rewind_unfold, Hreset. simpl in Hheap.
  eexists _, w2. split; [reflexivity|]. split; [exact Hin|].
  assert (heap w2 !! p = Some (Live failbit unopened)) as Hp
    by (rewrite Hheap; apply lookup_insert_eq).
  split; [reflexivity|]. split; [reflexivity|]. split; [discriminate|].
  unfold In.upcoming; simpl. rewrite Hp. reflexivity.
Qed.

(** X8.  Moving from a handle with a file name opens that file again: the new
    handle owns a stream of its own at the first byte, and every stream object
    that was there, the one of the source handle with its position included,
    is as it was. *)
Theorem In_move_reopens_by_name in_ (w : World) raw :
  readable (In.filename in_) w = Some raw ->
  exists p w',
    In.move in_ w =
      (Normal (In.mk (Some p) (mk_ios (heap_buf p) goodbit) (In.filename in_)), w') /\
    heap w !! p = None /\
    heap w' !! p = Some (Live goodbit (reading (decompress raw))) /\
    (forall a, a <> p -> heap w' !! a = heap w !! a) /\
    disk w' = disk w /\ console_in w' = console_in w.
Proof.
  intros Hraw.
  assert (In.filename in_ <> "") as Hname.
  { intros Hempty. rewrite Hempty, readable_empty in Hraw. discriminate. }
  unfold In.move, In.construct. rewrite bool_decide_eq_false_2 by exact Hname.
  rewrite In_open_unfold.
  set (this := In.with_myfile (In.filename in_) _).
  assert (In.valid this w) as Hvalid by (intros a0 [=]).
  destruct (In_reset_state_full (In.filename in_) this w Hvalid)
    as (p & st & sb & w2 & Hfresh & Hst & -> & Hheap & Hdisk & Hin & _).
  rewrite Hraw in Hst. destruct Hst as [-> ->]. simpl in *.
  exists p, w2. split; [reflexivity|]. split; [exact Hfresh|]. rewrite Hheap.
  split; [apply lookup_insert_eq|]. split; [|auto].
  intros a Ha. apply lookup_insert_ne. congruence.
Qed.

(** *** More on [Out] *)

(** [os.flush()] on a good view of a plain writer whose file holds what
    it has put there: the pending bytes follow them in the file, and the
    writer stands behind them. *)
Lemma ostream_flush_plain (w : World) p st path flushed pending :
  heap w !! p = Some (Live st (writing path None (flushed ++ pending))) ->
  disk w !! path = Some flushed ->
  offset_of p w = length flushed ->
  exists w',
    ostream_flush (mk_ios (heap_buf p) goodbit) w =
      Some (mk_ios (heap_buf p) goodbit, w') /\
    heap w' = heap w /\
    disk w' !! path = Some (flushed ++ pending) /\
    offset_of p w' = length (flushed ++ pending) /\
    resolve w' = resolve w.
Proof.
  intros Hp Hfile Hoff. unfold ostream_flush, pubsync. simpl. rewrite Hp.
  eexists. split; [reflexivity|]. simpl. rewrite Hoff, drop_app_length.
  split; [reflexivity|]. split; [apply disk_write_append; exact Hfile|].
  split; [apply offset_of_insert | reflexivity].
Qed.

(** [Out::open] and [Out::open_compressed] on a valid handle, step by
    step: the view is flushed, the new stream made, the stream owned before
    destroyed, and the view attached to the new stream with its state. *)
Lemma Out_open_steps filename this (w : World) :
  Out.valid this w ->
  exists s1 w1 p w2 w3,
    ostream_flush (Out.os this) w = Some (s1, w1) /\
    new_ofstream filename None w1 = (p, w2) /\
    match Out.byname this with
    | Some old => delete_stream old w2 = Some w3
    | None => w3 = w2
    end /\
    Out.open filename this w =
      (if can_write filename w then Normal tt else Raise (file_not_writable filename),
       Out.mk (Some p)
              (mk_ios (heap_buf p) (if can_write filename w then goodbit else failbit))
              (Out.myfile this),
       w3).
Proof.
  intros [Hown Hview].
  destruct (ostream_flush_alive (Out.os this) w Hview)
    as (s1 & w1 & Hflush & _ & Hheap & _ & Hden).
  destruct (new_ofstream_spec filename None w1)
    as (p & w2 & Hnew & Hfresh & Hheap2 & _).
  assert (can_write filename w1 = can_write filename w) as Hcan1
    by (unfold can_write; rewrite Hden; reflexivity).
  rewrite Hcan1, Hheap in Hheap2. rewrite Hheap in Hfresh.
  exists s1, w1, p, w2.
  unfold Out.open, Out.open_compressed, bind, Out.os_flush, Out.new_stream,
    Out.byname_reset, Out.byname_rdbuf, Out.os_rdbuf, Out.byname_rdstate,
    Out.os_setstate, Out.os_not, throw, ret.
  rewrite Hflush; simpl. rewrite Hnew; simpl.
  destruct (Out.byname this) as [old|] eqn:Hby; simpl.
  - destruct (Hown old eq_refl) as (st0 & sb0 & Hold).
    assert (old <> p) as Hne by (intros ->; congruence).
    assert (alive old w2) as Hal
      by (unfold alive; rewrite Hheap2, lookup_insert_ne by congruence; eauto).
    destruct (delete_stream_alive old w2 Hal) as (w3 & Hdel & Hheap3 & _).
    exists w3. rewrite Hdel. simpl. unfold stream_rdstate.
    rewrite Hheap3, lookup_insert_ne, Hheap2, lookup_insert_eq by congruence.
    destruct (can_write filename w); simpl;
      rewrite set_rdbuf_setstate by reflexivity; simpl; repeat split; reflexivity.
  - exists w2. unfold stream_rdstate. rewrite Hheap2, lookup_insert_eq.
    destruct (can_write filename w); simpl;
      rewrite set_rdbuf_setstate by reflexivity; simpl; repeat split; reflexivity.
Qed.


(** After these steps the new stream has an address that was not in use
    and is alive, and the stream owned before is destroyed. *)
Lemma open_steps_owner filename kind this (w : World) s1 w1 p w2 w3 :
  Out.valid this w ->
  ostream_flush (Out.os this) w = Some (s1, w1) ->
  new_ofstream filename kind w1 = (p, w2) ->
  match Out.byname this with
  | Some old => delete_stream old w2 = Some w3
  | None => w3 = w2
  end ->
  heap w !! p = None /\
  heap w3 !! p =
    Some (if can_write filename w
          then Live goodbit (writing (resolve w filename) kind [])
          else Live failbit unopened) /\
  (forall old, Out.byname this = Some old -> heap w3 !! old = Some Freed).
Proof.
  intros [Hown _] Hflush Hnew Hdel.
  destruct (ostream_flush_frame _ _ _ _ Hflush) as (Hheap & Hres & Hden & _).
  destruct (new_ofstream_spec filename kind w1)
    as (p' & w2' & Hn & Hfresh & Hheap2 & _).
  rewrite Hnew in Hn. injection Hn as <- <-.
  assert (can_write filename w1 = can_write filename w) as Hcan1
    by (unfold can_write; rewrite Hden; reflexivity).
  rewrite Hcan1, Hres, Hheap in Hheap2. rewrite Hheap in Hfresh.
  split; [exact Hfresh|].
  destruct (Out.byname this) as [old|] eqn:Hby.
  - destruct (Hown old eq_refl) as (st0 & sb0 & Hold).
    assert (old <> p) as Hne by (intros ->; congruence).
    assert (alive old w2) as Hal
      by (unfold alive; rewrite Hheap2, lookup_insert_ne by congruence; eauto).
    destruct (delete_stream_alive old w2 Hal) as (w3' & Hd & Hheap3 & _).
    rewrite Hdel in Hd. injection Hd as <-. rewrite Hheap3. split.
    + rewrite lookup_insert_ne, Hheap2 by congruence. apply lookup_insert_eq.
    + intros a [= <-]. apply lookup_insert_eq.
  - subst w3. split; [rewrite Hheap2; apply lookup_insert_eq | intros a [=]].
Qed.


(** X10.  [Out(filename)] never throws: the view is made on the buffer of the new
    stream and starts good even when the file could not be opened.  The
    failure shows at the first write of any data, which throws the error of
    [operator<<]. *)
Theorem Out_of_file_never_throws filename type_name chunk (w : World) :
  exists this w1,
    Out.of_file filename w = (Normal this, w1) /\
    good (Out.stream this) = true /\
    Out.filename this = filename /\
    Out.valid this w1 /\
    (Out.shl type_name ostream_write chunk this w1).1.1 =
      if can_write filename w || bool_decide (chunk = [])
      then Normal tt
      else Raise (runtime_error ("Error writing type: " +:+ type_name +:+
                                 " to file " +:+ filename)).
Proof.
  destruct (new_ofstream_spec filename None w)
    as (p & w1 & Hnew & _ & Hheap & _).
  assert (heap w1 !! p =
            Some (if can_write filename w
                  then Live goodbit (writing (resolve w filename) None [])
                  else Live failbit unopened)) as Hp
    by (rewrite Hheap; apply lookup_insert_eq).
  unfold Out.of_file. rewrite Hnew. simpl.
  eexists _, w1. split; [reflexivity|]. split; [reflexivity|].
  split; [reflexivity|].
  split; [split; simpl; intros a [= <-]; unfold alive; rewrite Hp;
          destruct (can_write filename w); eauto|].
  unfold Out.shl, bind, Out.stream_insert, Out.stream, ostream_write, sputn; simpl.
  rewrite Hp. destruct (can_write filename w); simpl; [reflexivity|].
  destruct (bool_decide (chunk = [])); reflexivity.
Qed.

(** X11.  [open(filename)] on a handle that does not hold a writer on the file
    the name denotes, the writes, [close()]: the file holds exactly the bytes
    written, in order, and nothing of what it held before; a reader opening
    the name finds them. *)
Theorem plain_file_holds_what_was_written filename type_name
    (chunks : list (list byte)) out (w : World) :
  Out.valid out w -> can_write filename w = true ->
  (forall a st file kind sent,
     Out.byname out = Some a ->
     heap w !! a = Some (Live st (writing file kind sent)) ->
     file <> resolve w filename) ->
  exists out1 w1 w2 out3 w3,
    Out.open filename out w = (Normal tt, out1, w1) /\
    write_all type_name chunks out1 w1 = (Normal tt, out1, w2) /\
    Out.close out1 w2 = (Normal tt, out3, w3) /\
    disk w3 !! resolve w filename = Some (concat chunks) /\
    readable filename w3 = Some (concat chunks).
Proof.
  intros Hvalid Hcan Hnot.
  destruct (Out_open_fresh filename out w Hvalid Hcan Hnot)
    as (p & w1 & Hopen & Hp1 & Hoff1 & Hfile1 & Hres1).
  set (out1 := Out.mk (Some p) (mk_ios (heap_buf p) goodbit) (Out.myfile out)) in *.
  destruct (write_all_spec type_name chunks out1 w1 p _ _ _ _ eq_refl Hp1)
    as (w2 & Hwrite & Hp2 & Hdisk2 & Hoff2 & Hres2).
  rewrite <- Hdisk2 in Hfile1.
  assert (offset_of p w2 = length (@nil byte)) as Hoff
    by (unfold offset_of in *; rewrite Hoff2; exact Hoff1).
  destruct (Out_close_writer out1 w2 p _ _ _ _ [] eq_refl eq_refl Hp2 Hfile1 Hoff
              (ex_intro _ _ eq_refl))
    as (out3 & w3 & Hclose & Hdisk & Hres3).
  simpl in Hdisk.
  exists out1, w1, w2, out3, w3.
  split; [exact Hopen|]. split; [exact Hwrite|]. split; [exact Hclose|].
  split; [exact Hdisk|].
  unfold readable. unfold can_write in Hcan.
  destruct (decide (filename = "")) as [->|_]; [discriminate|].
  rewrite Hres3, Hres2, Hres1. exact Hdisk.
Qed.

(** X12.  [flush()] between writes to a plain file, on a handle that did not
    hold a writer on that file before [open]: what was written before the
    flush is in the file at once, the file stays open, and after more writes
    and [close()] the file holds everything. *)
Theorem flush_publishes_plain_output filename type_name
    (chunks more : list (list byte)) out (w : World) :
  Out.valid out w -> can_write filename w = true ->
  (forall a st file kind sent,
     Out.byname out = Some a ->
     heap w !! a = Some (Live st (writing file kind sent)) ->
     file <> resolve w filename) ->
  exists out1 w1 w2 w3 w4 out5 w5,
    Out.open filename out w = (Normal tt, out1, w1) /\
    write_all type_name chunks out1 w1 = (Normal tt, out1, w2) /\
    Out.flush out1 w2 = (Normal tt, out1, w3) /\
    disk w3 !! resolve w filename = Some (concat chunks) /\
    write_all type_name more out1 w3 = (Normal tt, out1, w4) /\
    Out.close out1 w4 = (Normal tt, out5, w5) /\
    disk w5 !! resolve w filename = Some (concat chunks ++ concat more).
Proof.
  intros Hvalid Hcan Hnot.
  destruct (Out_open_fresh filename out w Hvalid Hcan Hnot)
    as (p & w1 & Hopen & Hp1 & Hoff1 & Hfile1 & Hres1).
  set (out1 := Out.mk (Some p) (mk_ios (heap_buf p) goodbit) (Out.myfile out)) in *.
  destruct (write_all_spec type_name chunks out1 w1 p _ _ _ _ eq_refl Hp1)
    as (w2 & Hwrite & Hp2 & Hdisk2 & Hoff2 & Hres2).
  rewrite <- Hdisk2 in Hfile1. simpl in Hp2.
  assert (offset_of p w2 = length (@nil byte)) as Hoff
    by (unfold offset_of in *; rewrite Hoff2; exact Hoff1).
  destruct (ostream_flush_plain w2 p _ _ [] _ Hp2 Hfile1 Hoff)
    as (w3 & Hflush & Hheap3 & Hfile3 & Hoff3 & Hres3).
  simpl in Hfile3, Hoff3.
  assert (Out.flush out1 w2 = (Normal tt, out1, w3)) as Hflush'
    by (unfold Out.flush, Out.os_flush; simpl; rewrite Hflush; reflexivity).
  rewrite <- Hheap3 in Hp2.
  destruct (write_all_spec type_name more out1 w3 p _ _ _ _ eq_refl Hp2)
    as (w4 & Hmore & Hp4 & Hdisk4 & Hoff4 & Hres4).
  rewrite <- Hdisk4 in Hfile3.
  assert (offset_of p w4 = length (concat chunks)) as Hoff'
    by (unfold offset_of in *; rewrite Hoff4; exact Hoff3).
  destruct (Out_close_writer out1 w4 p _ _ _ _ _ eq_refl eq_refl Hp4 Hfile3 Hoff'
              (ex_intro _ _ eq_refl))
    as (out5 & w5 & Hclose & Hdisk & _).
  simpl in Hdisk.
  exists out1, w1, w2, w3, w4, out5, w5.
  split; [exact Hopen|]. split; [exact Hwrite|].
  split; [exact Hflush'|]. split; [rewrite <- Hdisk4; exact Hfile3|].
  split; [exact Hmore|]. split; [exact Hclose | exact Hdisk].
Qed.

Lemma Out_close_console this (w : World) :
  console_out (Out.close this w).2 = console_out w.
Proof.
  unfold Out.close, bind, Out.os_flush, Out.byname_reset, Out.os_rdbuf,
    Out.cout_state, Out.os_setstate.
  assert (forall s s' w', ostream_flush s w = Some (s', w') ->
            console_out w' = console_out w) as Hflush.
  { intros s s' w'. unfold ostream_flush, pubsync.
    destruct (is_null (rdbuf s)); [intros [= _ <-]; reflexivity|].
    destruct (good s); [|intros [= _ <-]; reflexivity].
    destruct (rdbuf s) as [|std|a]; [discriminate | intros [= _ <-]; reflexivity |].
    destruct (heap w !! a) as [[st [avail|path [kind|] sent|]|]|];
      intros [= _ <-]; reflexivity. }
  destruct (ostream_flush (Out.os this) w) as [[s w1]|] eqn:Hf; simpl; [|reflexivity].
  apply Hflush in Hf.
  destruct (Out.byname this) as [old|]; simpl; [|exact Hf].
  destruct (delete_stream old w1) as [w2|] eqn:Hd; simpl; [|exact Hf].
  apply delete_stream_frame in Hd. destruct Hd as (_ & -> & _). exact Hf.
Qed.

(** X13.  After [close()], with [std::cout] good, what is written through the
    handle is appended to standard output and to no file. *)
Theorem writes_after_close_go_to_stdout type_name chunk this (w : World) :
  Out.valid this w -> cout_rdstate w = goodbit ->
  exists this1 w1 w2,
    Out.close this w = (Normal tt, this1, w1) /\
    Out.shl type_name ostream_write chunk this1 w1 = (Normal tt, this1, w2) /\
    console_out w2 = console_out w ++ chunk /\
    disk w2 = disk w1 /\ heap w2 = heap w1.
Proof.
  intros Hvalid Hcout.
  pose proof (Out_close_console this w) as Hconsole.
  destruct (Out_close_spec this w Hvalid) as (w1 & Hclose & _).
  rewrite Hclose in Hconsole. simpl in Hconsole. rewrite Hcout in Hclose.
  eexists _, w1, _. split; [exact Hclose|].
  unfold Out.shl, bind, Out.stream_insert, Out.stream, ostream_write; simpl.
  split; [reflexivity|]. simpl. rewrite Hconsole. auto.
Qed.

(** [open] for a name that denotes another file, on a handle with a good
    view on its own plain writer: the pending bytes reach the writer's file
    before the writer is destroyed, and opening the other file leaves them
    there. *)
Lemma open_steps_releases filename kind this (w : World) s1 w1 p w2 w3
    a st path flushed pending :
  Out.byname this = Some a ->
  Out.os this = mk_ios (heap_buf a) goodbit ->
  heap w !! a = Some (Live st (writing path None (flushed ++ pending))) ->
  disk w !! path = Some flushed ->
  offset_of a w = length flushed ->
  path <> resolve w filename ->
  ostream_flush (Out.os this) w = Some (s1, w1) ->
  new_ofstream filename kind w1 = (p, w2) ->
  delete_stream a w2 = Some w3 ->
  disk w3 !! path = Some (flushed ++ pending).
Proof.
  intros Hby Hos Ha Hfile Hoff Hother Hflush Hnew Hdel.
  rewrite Hos in Hflush.
  destruct (ostream_flush_plain w a st path flushed pending Ha Hfile Hoff)
    as (w1' & Hf & Hheap1 & Hfile1 & Hoff1 & Hres1).
  rewrite Hf in Hflush. injection Hflush as <- <-.
  destruct (new_ofstream_spec filename kind w1')
    as (p' & w2' & Hn & Hfresh & Hheap2 & Hdisk2 & _ & _ & _ & _ & _ & Hoffs2).
  rewrite Hnew in Hn. injection Hn as <- <-.
  rewrite Hheap1 in Hfresh, Hheap2. rewrite Hres1 in Hdisk2.
  assert (a <> p) as Hne by (intros ->; congruence).
  assert (heap w2 !! a = Some (Live st (writing path None (flushed ++ pending))))
    as Ha2 by (rewrite Hheap2, lookup_insert_ne by congruence; exact Ha).
  assert (offset_of a w2 = length (flushed ++ pending)) as Hoff2
    by (unfold offset_of in *; rewrite Hoffs2 by exact Hne; exact Hoff1).
  unfold delete_stream in Hdel. rewrite Ha2 in Hdel. injection Hdel as <-.
  simpl. rewrite Hoff2, drop_all. unfold disk_write at 1.
  rewrite bool_decide_eq_true_2 by reflexivity. rewrite Hdisk2.
  destruct (can_write filename w1'); [|exact Hfile1].
  rewrite lookup_insert_ne by congruence. exact Hfile1.
Qed.

(** X14.  Switching files with [open]: after [open(f1)] on a handle that did not
    hold a writer on that file, writes, and [open(f2)] for a name that
    denotes another file, the first file is complete on disk and its stream
    destroyed, whether or not [f2] could be opened. *)
Theorem open_completes_previous_file f1 f2 type_name
    (chunks : list (list byte)) out (w : World) :
  Out.valid out w -> can_write f1 w = true ->
  (forall a st file kind sent,
     Out.byname out = Some a ->
     heap w !! a = Some (Live st (writing file kind sent)) ->
     file <> resolve w f1) ->
  resolve w f1 <> resolve w f2 ->
  exists out1 w1 w2 r out3 w3,
    Out.open f1 out w = (Normal tt, out1, w1) /\
    write_all type_name chunks out1 w1 = (Normal tt, out1, w2) /\
    Out.open f2 out1 w2 = (r, out3, w3) /\
    disk w3 !! resolve w f1 = Some (concat chunks) /\
    exists a, Out.byname out1 = Some a /\ heap w3 !! a = Some Freed /\
              Out.byname out3 <> Some a.
Proof.
  intros Hvalid Hcan Hnot Hother.
  destruct (Out_open_fresh f1 out w Hvalid Hcan Hnot)
    as (p & w1 & Hopen & Hp1 & Hoff1 & Hfile1 & Hres1).
  set (out1 := Out.mk (Some p) (mk_ios (heap_buf p) goodbit) (Out.myfile out)) in *.
  destruct (write_all_spec type_name chunks out1 w1 p _ _ _ _ eq_refl Hp1)
    as (w2 & Hwrite & Hp2 & Hdisk2 & Hoff2 & Hres2).
  rewrite <- Hdisk2 in Hfile1. simpl in Hp2.
  assert (offset_of p w2 = length (@nil byte)) as Hoff
    by (unfold offset_of in *; rewrite Hoff2; exact Hoff1).
  assert (Out.valid out1 w2) as Hvalid2.
  { split; simpl; intros a [= <-]; unfold alive; eauto. }
  destruct (Out_open_steps f2 out1 w2 Hvalid2)
    as (s1 & w1' & q & w2' & w3 & Hflush & Hnew & Hdel & Hopen2).
  simpl in Hdel.
  destruct (open_steps_owner f2 None out1 w2 s1 w1' q w2' w3 Hvalid2 Hflush Hnew Hdel)
    as (Hfresh & _ & Hfreed).
  assert (resolve w f1 <> resolve w2 f2) as Hother2
    by (rewrite Hres2, Hres1; exact Hother).
  pose proof (open_steps_releases f2 None out1 w2 s1 w1' q w2' w3 p _ _ [] _
                eq_refl eq_refl Hp2 Hfile1 Hoff Hother2 Hflush Hnew Hdel) as Hdisk.
  simpl in Hdisk.
  eexists out1, w1, w2, _, _, w3.
  split; [exact Hopen|]. split; [exact Hwrite|]. split; [exact Hopen2|].
  split; [exact Hdisk|]. exists p. split; [reflexivity|].
  split; [apply Hfreed; reflexivity|].
  simpl. intros [= ->]. congruence.
Qed.

(** *** Sequences of calls *)

Lemma alive_insert_live a st sb (w : World) b :
  alive b w -> alive b (with_heap (<[a := Live st sb]> (heap w)) w).
Proof.
  intros (st0 & sb0 & Hb). unfold alive; simpl.
  destruct (decide (a = b)) as [->|Hne];
    [rewrite lookup_insert_eq | rewrite lookup_insert_ne by exact Hne]; eauto.
Qed.

Lemma setstate_null_not_good st s :
  is_null (rdbuf (setstate st s)) = true -> good (setstate st s) = false.
Proof.
  unfold setstate, clear, good; simpl. intros ->.
  apply Z.eqb_neq. intros H. apply Z.lor_eq_0_iff in H. destruct H as [_ H].
  discriminate.
Qed.

(** [os.flush()] and [os << bytes] on a view whose buffer is alive, and
    which is not good when it has no buffer: the call is defined, the view
    keeps its buffer, and no stream object is destroyed. *)
Lemma ostream_flush_keeps s (w : World) :
  (forall a, rdbuf s = heap_buf a -> alive a w) ->
  (is_null (rdbuf s) = true -> good s = false) ->
  exists s' w',
    ostream_flush s w = Some (s', w') /\ rdbuf s' = rdbuf s /\ heap w' = heap w /\
    (is_null (rdbuf s') = true -> good s' = false).
Proof.
  intros Hview Hnull. unfold ostream_flush.
  destruct (is_null (rdbuf s)) eqn:Hn; [eauto 10|].
  destruct (good s) eqn:Hgood.
  - destruct (rdbuf s) as [|std|a] eqn:Hbuf; [discriminate| |]; simpl.
    + exists s, w. rewrite Hbuf. repeat split. discriminate.
    + destruct (Hview a eq_refl) as (st & sb & ->).
      destruct sb as [avail|path [kind|] sent|]; eexists s, _;
        rewrite Hbuf; repeat split; discriminate.
  - eexists _, w. split; [reflexivity|]. repeat split.
    apply setstate_null_not_good.
Qed.

Lemma ostream_write_keeps bs s (w : World) :
  (forall a, rdbuf s = heap_buf a -> alive a w) ->
  (is_null (rdbuf s) = true -> good s = false) ->
  exists s' w',
    ostream_write bs s w = Some (s', w') /\ rdbuf s' = rdbuf s /\
    (forall b, alive b w -> alive b w') /\
    (is_null (rdbuf s') = true -> good s' = false).
Proof.
  intros Hview Hnull. unfold ostream_write.
  destruct (good s) eqn:Hgood.
  - assert (exists ok w', sputn (rdbuf s) bs w = Some (ok, w') /\
              (forall b, alive b w -> alive b w')) as (ok & w' & -> & Halive).
    { unfold sputn. destruct (rdbuf s) as [|[|]|a] eqn:Hbuf.
      - specialize (Hnull eq_refl). discriminate.
      - eauto.
      - eexists _, _. split; [reflexivity|]. auto.
      - destruct (Hview a eq_refl) as (st & sb & ->).
        destruct sb as [avail|path kind sent|]; eexists _, _;
          (split; [reflexivity|]); auto.
        intros b. apply alive_insert_live. }
    destruct ok.
    + exists s, w'. repeat split; auto.
      intros Hn. specialize (Hnull Hn). congruence.
    + eexists _, w'. split; [reflexivity|]. repeat split; auto.
      apply setstate_null_not_good.
  - eexists _, w. split; [reflexivity|]. repeat split; auto.
    apply setstate_null_not_good.
Qed.

(** One call on an output handle that is valid, and whose view is not good
    when it has no buffer: the call is defined and the handle is such a
    handle again. *)
Lemma Out_do_keeps_valid c this (w : World) :
  Out.valid this w ->
  (is_null (rdbuf (Out.os this)) = true -> good (Out.os this) = false) ->
  let '(r, this', w') := Out_do c this w in
  r <> Undefined /\ Out.valid this' w' /\
  (is_null (rdbuf (Out.os this')) = true -> good (Out.os this') = false).
Proof.
  intros Hvalid Hnull. destruct c as [f|f type level| | |type_name bs]; simpl.
  - destruct (Out_open_spec f this w Hvalid) as (p & w1 & -> & Hp).
    destruct (can_write f w); (split; [discriminate|]);
      (split; [split; simpl; intros a [= <-]; unfold alive; eauto|]);
      simpl; discriminate.
  - destruct (Out_open_compressed_spec f type level this w Hvalid) as (p & w1 & -> & Hp).
    destruct (can_write f w); (split; [discriminate|]);
      (split; [split; simpl; intros a [= <-]; unfold alive; eauto|]);
      simpl; discriminate.
  - destruct (Out_close_spec this w Hvalid) as (w1 & -> & _).
    split; [discriminate|]. split; [split; simpl; intros a [=]|]. simpl; discriminate.
  - destruct Hvalid as [Hown Hview].
    destruct (ostream_flush_keeps (Out.os this) w Hview Hnull)
      as (s' & w' & Hflush & Hbuf & Hheap & Hnull').
    unfold Out.flush, Out.os_flush. rewrite Hflush.
    split; [discriminate|]. split; [|exact Hnull'].
    split; simpl; intros a Ha; unfold alive; rewrite Hheap;
      [apply Hown | apply Hview; rewrite <- Hbuf]; exact Ha.
  - destruct Hvalid as [Hown Hview].
    destruct (ostream_write_keeps bs (Out.os this) w Hview Hnull)
      as (s' & w' & Hwrite & Hbuf & Halive & Hnull').
    unfold Out.shl, bind, Out.stream_insert, Out.stream. rewrite Hwrite. simpl.
    assert (Out.valid (Out.with_os s' this) w') as Hvalid'.
    { split; simpl; intros a Ha; apply Halive;
        [apply Hown | apply Hview; rewrite <- Hbuf]; exact Ha. }
    destruct (negb (good s') && negb (eof s')); simpl;
      (split; [discriminate|]); split; assumption.
Qed.

(** X15.  Whatever is called on an output handle that started valid (as
    [Out()] and [Out(filename)] make it), in whatever order and whatever the
    calls threw, no call uses a destroyed stream and the view is never left on
    one: the handle stays valid. *)
Theorem Out_calls_never_dangle calls : forall this (w : World),
  Out.valid this w ->
  (is_null (rdbuf (Out.os this)) = true -> good (Out.os this) = false) ->
  exists this' w', Out_run calls this w = Some (this', w') /\ Out.valid this' w'.
Proof.
  induction calls as [|c calls IH]; intros this w Hvalid Hnull; simpl.
  - eauto.
  - pose proof (Out_do_keeps_valid c this w Hvalid Hnull) as H.
    destruct (Out_do c this w) as [[r this'] w'].
    destruct H as (Hr & Hvalid' & Hnull').
    destruct r as [[]|e|]; [apply IH | apply IH | contradiction]; assumption.
Qed.

(** One call of [open], [close] or [rewind] on a valid input handle is
    defined, keeps the handle valid, and leaves every stream object the handle
    does not own as it was. *)
Lemma In_do_keeps_valid c this (w : World) b :
  In.valid this w -> alive b w -> In.byname this <> Some b ->
  let '(r, this', w') := In_do c this w in
  r <> Undefined /\ In.valid this' w' /\
  heap w' !! b = heap w !! b /\ In.byname this' <> Some b.
Proof.
  intros Hvalid Hb Hnot.
  assert (forall filename (this0 : In.t),
            In.byname this0 = In.byname this ->
            let '(r, this', w') := In.reset_state filename this0 w in
            r = Normal tt /\ In.valid this' w' /\
            heap w' !! b = heap w !! b /\ In.byname this' <> Some b) as Hreset.
  { intros filename this0 Hby0.
    assert (In.valid this0 w) as Hvalid0.
    { intros a Ha. apply Hvalid. rewrite <- Hby0. exact Ha. }
    destruct (In_reset_state_full filename this0 w Hvalid0)
      as (p & st & sb & w2 & Hfresh & _ & -> & Hheap & _).
    assert (b <> p) as Hbp.
    { intros ->. destruct Hb as (? & ? & Hb). congruence. }
    assert (heap w2 !! p = Some (Live st sb)) as Hp.
    { rewrite Hheap. destruct (In.byname this0) as [old|] eqn:Hold.
      - destruct (Hvalid0 old Hold) as (st0 & sb0 & Ho).
        rewrite lookup_insert_ne; [apply lookup_insert_eq|].
        intros ->. congruence.
      - apply lookup_insert_eq. }
    split; [reflexivity|]. split; [intros a [= <-]; unfold alive; eauto|].
    split; [|simpl; congruence].
    rewrite Hheap. destruct (In.byname this0) as [old|] eqn:Hold.
    - rewrite !lookup_insert_ne by congruence. reflexivity.
    - rewrite lookup_insert_ne by congruence. reflexivity. }
  destruct c as [f| |]; simpl.
  - rewrite In_open_unfold.
    pose proof (Hreset f (In.with_myfile f this) eq_refl) as H.
    destruct (In.reset_state f (In.with_myfile f this) w) as [[r this'] w'].
    destruct H as (-> & Hv & Hh & Hn).
    destruct (fail (In.is_ this')); (split; [discriminate|]); auto.
  - unfold In.close, In.byname_reset.
    destruct (In.byname this) as [old|] eqn:Hby.
    + destruct (Hvalid old Hby) as (st0 & sb0 & Hold).
      unfold delete_stream. rewrite Hold.
      destruct sb0 as [avail|path kind sent|]; simpl;
        (split; [discriminate|]); (split; [intros a [=]|]);
        (split; [apply lookup_insert_ne; congruence | discriminate]).
    + split; [discriminate|]. split; [intros a [=]|]. split; [reflexivity|discriminate].
  - rewrite In_rewind_unfold.
    pose proof (Hreset (In.myfile this) this eq_refl) as H.
    destruct (In.reset_state (In.myfile this) this w) as [[r this'] w'].
    destruct H as (-> & Hv & Hh & Hn). split; [discriminate|]. auto.
Qed.

(** X16.  Whatever sequence of [open], [close] and [rewind] is called on a valid
    input handle, and whatever [open] threw: no call destroys a stream twice
    or uses a destroyed one, the handle stays valid, and a stream object that
    belongs to someone else is never touched. *)
Theorem In_calls_leave_other_streams calls : forall this (w : World) b,
  In.valid this w -> alive b w -> In.byname this <> Some b ->
  exists this' w',
    In_run calls this w = Some (this', w') /\ In.valid this' w' /\
    heap w' !! b = heap w !! b.
Proof.
  induction calls as [|c calls IH]; intros this w b Hvalid Hb Hnot; simpl.
  - eauto.
  - pose proof (In_do_keeps_valid c this w b Hvalid Hb Hnot) as H.
    destruct (In_do c this w) as [[r this'] w'].
    destruct H as (Hr & Hvalid' & Hsame & Hnot').
    assert (alive b w') as Hb'.
    { unfold alive in *. rewrite Hsame. exact Hb. }
    destruct r as [[]|e|]; [| |contradiction];
      destruct (IH this' w' b Hvalid' Hb' Hnot') as (this'' & w'' & -> & Hv & Hh);
      exists this'', w''; rewrite Hh, Hsame; auto.
Qed.

End Properties.

(** *** [directory_exists] *)

(** X17.  [directory_exists] returns when the path is a directory and throws
    [directory_does_not_exist] for that path when it is not; either way no
    directory stream is left open. *)
Theorem directory_exists_probe dir_path (d : Dirs) :
  let '(r, d') := directory_exists dir_path d in
  r = (if bool_decide (dir_path ∈ directories d)
       then Normal tt else Raise (directory_does_not_exist dir_path)) /\
  directories d' = directories d /\
  open_dirs d' = open_dirs d /\
  match r with
  | Raise e => what e = "Directory " +:+ dir_path +:+ " does not exist."
  | _ => True
  end.
Proof.
  unfold directory_exists, opendir.
  destruct (decide (dir_path ∈ directories d)) as [Hin|Hout]; simpl.
  - rewrite bool_decide_eq_true_2 by exact Hin.
    repeat split. simpl.
    pose proof (is_fresh (open_dirs d)) as Hfresh.
    apply set_eq. intros x.
    rewrite elem_of_difference, elem_of_union, !elem_of_singleton.
    split.
    + intros [[Hx|Hx] Hne]; [contradiction | exact Hx].
    + intros Hx. split; [right; exact Hx | intros ->; contradiction].
  - rewrite bool_decide_eq_false_2 by exact Hout. repeat split.
Qed.

(** ** The model at work *)

#[local] Existing Instance framing.

Example count_lines_three_lines :
  exists this1 w1 this2 w2,
    In.of_file "data.txt" (data_world three_lines) = (Normal this1, w1) /\
    In.count_lines int 7 this1 w1 = Some (Normal 3%Z, this2, w2) /\
    count_newlines (bytes three_lines) = 2.
Proof. eexists _, _, _, _. repeat split; vm_compute; reflexivity. Qed.

Example count_lines_wraps_in_uint8_t :
  wrap uint8_t 300 = 44%Z /\ wrap int 2147483648 = (-2147483648)%Z.
Proof. split; reflexivity. Qed.

(** C2 as stated fails: for a file holding the single byte [a],
    [count_lines<int>()] returns 1, and the file has no newline. *)
Lemma count_lines_is_not_newline_count :
  ~ (forall filename (w : @World framing) raw,
       readable filename w = Some raw ->
       exists this1 w1,
         In.of_file filename w = (Normal this1, w1) /\
         forall fuel, length (decompress raw) + 2 <= fuel ->
           exists this2 w2,
             In.count_lines int fuel this1 w1 =
               Some (Normal (wrap int (Z.of_nat (count_newlines (decompress raw)))),
                     this2, w2)).
Proof.
  intros H.
  destruct (H "data.txt" (data_world "a") (bytes "a") eq_refl)
    as (this1 & w1 & Hof & Hcount).
  vm_compute in Hof. injection Hof as <- <-.
  destruct (Hcount 3) as (this2 & w2 & Hthree); [vm_compute; lia|].
  vm_compute in Hthree. discriminate.
Qed.

Lemma count_lines_counts_lines_and_rewinds_witness :
  readable "data.txt" (data_world three_lines) = Some (bytes three_lines) /\
  length (decompress (bytes three_lines)) + 2 <= 7 /\
  exists this1 w1 this2 w2,
    In.of_file "data.txt" (data_world three_lines) = (Normal this1, w1) /\
    In.count_lines int 7 this1 w1 = Some (Normal 3%Z, this2, w2) /\
    good (In.stream this2) = true /\
    In.filename this2 = "data.txt" /\
    In.upcoming this2 w2 = Some (bytes three_lines).
Proof.
  assert (length (decompress (bytes three_lines)) + 2 <= 7) as Hfuel
    by (vm_compute; lia).
  split; [reflexivity|]. split; [exact Hfuel|].
  destruct (count_lines_counts_lines_and_rewinds (codec := framing) int "data.txt"
              (data_world three_lines) (bytes three_lines) eq_refl)
    as (this1 & w1 & Hof & Hcount).
  destruct (Hcount 7 Hfuel) as (this2 & w2 & Hn & Hgood & Hname & Hnext).
  exists this1, w1, this2, w2. repeat split; assumption.
Defined.

Lemma count_lines_then_read_same_lines_witness :
  readable "data.txt" (data_world three_lines) = Some (bytes three_lines) /\
  length (decompress (bytes three_lines)) + 2 <= 7 /\
  exists this1 w1 n this2 w2 thisA wA thisB wB,
    In.of_file "data.txt" (data_world three_lines) = (Normal this1, w1) /\
    In.count_lines size_t 7 this1 w1 = Some (Normal n, this2, w2) /\
    In.getlines 7 [] [] this2 w2 =
      Some (Normal [bytes "a"; bytes "b"; bytes "c"], thisA, wA) /\
    In.getlines 7 [] [] this1 w1 =
      Some (Normal [bytes "a"; bytes "b"; bytes "c"], thisB, wB).
Proof.
  assert (length (decompress (bytes three_lines)) + 2 <= 7) as Hfuel
    by (vm_compute; lia).
  split; [reflexivity|]. split; [exact Hfuel|].
  destruct (count_lines_then_read_same_lines (codec := framing) size_t "data.txt"
              (data_world three_lines) (bytes three_lines) eq_refl)
    as (this1 & w1 & Hof & Hread).
  destruct (Hread 7 Hfuel) as (n & this2 & w2 & thisA & wA & thisB & wB & Hn & HA & HB).
  exists this1, w1, n, this2, w2, thisA, wA, thisB, wB. repeat split; assumption.
Defined.

Lemma Out_close_rebinds_to_cout_witness :
  Out.valid broken_out broken_world /\
  exists this' w',
    Out.close broken_out broken_world = (Normal tt, this', w') /\
    rdbuf (Out.stream this') = static_buf std_cout /\
    Out.byname this' = None /\
    (forall a, Out.byname broken_out = Some a -> heap w' !! a = Some Freed) /\
    rdstate (Out.stream this') = cout_rdstate w' /\
    good (Out.stream this') = (cout_rdstate w' =? goodbit)%Z /\
    Out.filename this' = Out.filename broken_out.
Proof.
  assert (Out.valid broken_out broken_world) as Hvalid.
  { split; intros a Ha; injection Ha as <-;
      exists failbit, unopened; vm_compute; reflexivity. }
  split; [exact Hvalid|].
  apply (Out_close_rebinds_to_cout (codec := framing) broken_out broken_world Hvalid).
Defined.

Lemma compressed_round_trip_witness :
  Out.valid Out.default empty_world /\
  In.byname In.default = None /\
  can_write "out.gz" empty_world = true /\
  exists out1 w1 out2 w2 out3 w3 inp' w4,
    Out.open_compressed "out.gz" true 6%Z Out.default empty_world = (Normal tt, out1, w1) /\
    write_all "Ss" [bytes "ab"; bytes three_lines] out1 w1 = (Normal tt, out2, w2) /\
    Out.close out2 w2 = (Normal tt, out3, w3) /\
    disk w3 !! resolve empty_world "out.gz" =
      Some (compress true 6%Z (concat [bytes "ab"; bytes three_lines])) /\
    In.open "out.gz" In.default w3 = (Normal tt, inp', w4) /\
    good (In.stream inp') = true /\
    In.upcoming inp' w4 =
      Some (decompress (compress true 6%Z (concat [bytes "ab"; bytes three_lines]))) /\
    (In.upcoming inp' w4 = Some (concat [bytes "ab"; bytes three_lines]) <->
     decompress (compress true 6%Z (concat [bytes "ab"; bytes three_lines])) =
       concat [bytes "ab"; bytes three_lines]).
Proof.
  assert (Out.valid Out.default empty_world) as Hvalid.
  { split; intros a Ha; discriminate. }
  split; [exact Hvalid|]. split; [reflexivity|]. split; [reflexivity|].
  apply (compressed_round_trip (codec := framing) "out.gz" true 6%Z "Ss"
           [bytes "ab"; bytes three_lines] Out.default In.default empty_world
           Hvalid eq_refl eq_refl).
  intros a st file kind sent Ha. discriminate.
Defined.

(** Kind [false] stores the data as it is, and the reader takes a leading
    marker for a frame: the codec does not restore such data, and the round
    trip is lost with it. *)
Example plain_kind_loses_marker :
  decompress (Bxz := framing) (compress false 6%Z [marker; "a"%byte]) = ["a"%byte].
Proof. reflexivity. Qed.

(** The round trip as the handles run it, on data that begins like a
    frame and is written with the kind that stores it as it is: every call
    returns, and the reader delivers one byte of the two written. *)
Lemma stored_frame_is_not_read_back :
  exists out1 w1 out2 w2 out3 w3 inp' w4,
    Out.open_compressed "out.gz" false 6%Z Out.default empty_world =
      (Normal tt, out1, w1) /\
    write_all "Ss" [[marker; "a"%byte]] out1 w1 = (Normal tt, out2, w2) /\
    Out.close out2 w2 = (Normal tt, out3, w3) /\
    In.open "out.gz" In.default w3 = (Normal tt, inp', w4) /\
    In.upcoming inp' w4 = Some ["a"%byte] /\
    In.upcoming inp' w4 <> Some (concat [[marker; "a"%byte]]).
Proof.
  eexists _, _, _, _, _, _, _, _.
  split; [vm_compute; reflexivity|]. split; [vm_compute; reflexivity|].
  split; [vm_compute; reflexivity|]. split; [vm_compute; reflexivity|].
  split; [vm_compute; reflexivity|]. vm_compute. discriminate.
Qed.

Lemma In_rewind_never_raises_witness :
  raises (In.rewind In.default empty_world).1.1 = false /\
  In.valid In.default empty_world /\
  (In.myfile In.default = "" \/ readable (In.myfile In.default) empty_world = None) /\
  exists this' w',
    In.rewind In.default empty_world = (Normal tt, this', w') /\
    fail (In.stream this') = true /\
    In.filename this' = In.filename In.default.
Proof.
  assert (In.valid In.default empty_world) as Hvalid.
  { intros a Ha; discriminate. }
  destruct (In_rewind_never_raises (codec := framing) In.default empty_world)
    as [Hnever Hfailed].
  split; [exact Hnever|]. split; [exact Hvalid|].
  split; [left; reflexivity|].
  apply Hfailed; [exact Hvalid | left; reflexivity].
Defined.

(** *** The further properties on small worlds *)

Lemma In_open_outcome_witness :
  In.valid In.default (data_world three_lines) /\
  let '(r, this', w') := In.open "data.txt" In.default (data_world three_lines) in
  In.filename this' = "data.txt" /\
  In.valid this' w' /\
  match In.byname In.default with Some old => heap w' !! old = Some Freed | None => True end /\
  match readable "data.txt" (data_world three_lines) with
  | Some raw =>
      r = Normal tt /\ good (In.stream this') = true /\
      In.upcoming this' w' = Some (decompress raw)
  | None =>
      r = Raise (runtime_error ("Cannot read from file: " +:+ "data.txt" +:+ ".")) /\
      fail (In.stream this') = true /\ In.upcoming this' w' = Some []
  end.
Proof.
  split; [apply In_default_valid|].
  apply (In_open_outcome (codec := framing) "data.txt" In.default
           (data_world three_lines)).
  intros a Ha; discriminate.
Defined.

Lemma In_of_file_unreadable_leaves_nothing_witness :
  readable "missing.txt" (data_world three_lines) = None /\
  exists w',
    In.of_file "missing.txt" (data_world three_lines) =
      (Raise (runtime_error ("Cannot read from file: " +:+ "missing.txt" +:+ ".")), w') /\
    disk w' = disk (data_world three_lines) /\
    (forall a, alive a w' <-> alive a (data_world three_lines)) /\
    (forall a, is_Some (heap (data_world three_lines) !! a) ->
               heap w' !! a = heap (data_world three_lines) !! a).
Proof.
  split; [reflexivity|].
  apply (In_of_file_unreadable_leaves_nothing (codec := framing) "missing.txt"
           (data_world three_lines)).
  reflexivity.
Defined.

Lemma rewind_always_returns_to_start_witness :
  In.byname reading_in = Some 0 /\
  heap (reading_world three_lines "c") !! 0 = Some (Live goodbit (reading (bytes "c"))) /\
  readable (In.myfile reading_in) (reading_world three_lines "c") =
    Some (bytes three_lines) /\
  exists this' w',
    rewinds 3 reading_in (reading_world three_lines "c") = (Normal tt, this', w') /\
    good (In.stream this') = true /\
    In.filename this' = In.filename reading_in /\
    In.upcoming this' w' = Some (decompress (bytes three_lines)).
Proof.
  split; [reflexivity|]. split; [reflexivity|]. split; [reflexivity|].
  apply (rewind_always_returns_to_start (codec := framing) 2 reading_in
           (reading_world three_lines "c") 0 goodbit (bytes "c") (bytes three_lines)
           eq_refl eq_refl eq_refl).
Defined.

Lemma In_read_after_close_is_undefined_witness :
  In.byname reading_in = Some 0 /\
  In.is_ reading_in = mk_ios (heap_buf 0) goodbit /\
  heap (reading_world three_lines "c") !! 0 = Some (Live goodbit (reading (bytes "c"))) /\
  exists this' w',
    In.close reading_in (reading_world three_lines "c") = (Normal tt, this', w') /\
    In.byname this' = None /\
    rdbuf (In.stream this') = heap_buf 0 /\ heap w' !! 0 = Some Freed /\
    In.upcoming this' w' = None /\
    In.count_lines int 5 this' w' = Some (Undefined, this', w').
Proof.
  split; [reflexivity|]. split; [reflexivity|]. split; [reflexivity|].
  apply (In_read_after_close_is_undefined (codec := framing) int 4 reading_in
           (reading_world three_lines "c") 0 goodbit (bytes "c")
           eq_refl eq_refl eq_refl).
Defined.

Lemma In_rewind_after_close_reopens_witness :
  In.byname reading_in = Some 0 /\
  heap (reading_world three_lines "c") !! 0 = Some (Live goodbit (reading (bytes "c"))) /\
  readable (In.myfile reading_in) (reading_world three_lines "c") =
    Some (bytes three_lines) /\
  exists this1 w1 this2 w2,
    In.close reading_in (reading_world three_lines "c") = (Normal tt, this1, w1) /\
    In.rewind this1 w1 = (Normal tt, this2, w2) /\
    good (In.stream this2) = true /\
    In.filename this2 = In.filename reading_in /\
    In.upcoming this2 w2 = Some (decompress (bytes three_lines)).
Proof.
  split; [reflexivity|]. split; [reflexivity|]. split; [reflexivity|].
  apply (In_rewind_after_close_reopens (codec := framing) reading_in
           (reading_world three_lines "c") 0 goodbit (bytes "c") (bytes three_lines)
           eq_refl eq_refl eq_refl).
Defined.

Lemma count_lines_counts_what_is_left_witness :
  In.byname reading_in = Some 0 /\
  In.is_ reading_in = mk_ios (heap_buf 0) goodbit /\
  heap (reading_world three_lines "c") !! 0 = Some (Live goodbit (reading (bytes "c"))) /\
  readable (In.myfile reading_in) (reading_world three_lines "c") =
    Some (bytes three_lines) /\
  length (bytes "c") + 2 <= 3 /\
  exists this' w',
    In.count_lines int 3 reading_in (reading_world three_lines "c") =
      Some (Normal 1%Z, this', w') /\
    good (In.stream this') = true /\
    In.upcoming this' w' = Some (bytes three_lines).
Proof.
  assert (length (bytes "c") + 2 <= 3) as Hfuel by (vm_compute; lia).
  split; [reflexivity|]. split; [reflexivity|]. split; [reflexivity|].
  split; [reflexivity|]. split; [exact Hfuel|].
  apply (count_lines_counts_what_is_left (codec := framing) int 3 reading_in
           (reading_world three_lines "c") 0 goodbit (bytes "c") (bytes three_lines)
           eq_refl eq_refl eq_refl eq_refl Hfuel).
Defined.

Lemma count_lines_detaches_stdin_witness :
  length (console_in (console_world three_lines)) + 2 <= 7 /\
  exists this' w',
    In.count_lines int 7 In.default (console_world three_lines) =
      Some (Normal 3%Z, this', w') /\
    console_in w' = [] /\
    In.filename this' = "" /\
    fail (In.stream this') = true /\
    rdbuf (In.stream this') <> static_buf std_cin /\
    In.upcoming this' w' = Some [].
Proof.
  assert (length (console_in (console_world three_lines)) + 2 <= 7) as Hfuel
    by (vm_compute; lia).
  split; [exact Hfuel|].
  apply (count_lines_detaches_stdin (codec := framing) int 7
           (console_world three_lines) Hfuel).
Defined.

Lemma In_move_reopens_by_name_witness :
  readable (In.filename reading_in) (reading_world three_lines "c") =
    Some (bytes three_lines) /\
  exists p w',
    In.move reading_in (reading_world three_lines "c") =
      (Normal (In.mk (Some p) (mk_ios (heap_buf p) goodbit) (In.filename reading_in)), w') /\
    heap (reading_world three_lines "c") !! p = None /\
    heap w' !! p = Some (Live goodbit (reading (decompress (bytes three_lines)))) /\
    (forall a, a <> p -> heap w' !! a = heap (reading_world three_lines "c") !! a) /\
    disk w' = disk (reading_world three_lines "c") /\
    console_in w' = console_in (reading_world three_lines "c").
Proof.
  split; [reflexivity|].
  apply (In_move_reopens_by_name (codec := framing) reading_in
           (reading_world three_lines "c") (bytes three_lines) eq_refl).
Defined.


Lemma plain_file_holds_what_was_written_witness :
  Out.valid writing_out writing_world /\
  can_write "./new.txt" writing_world = true /\
  (forall a st file kind sent,
     Out.byname writing_out = Some a ->
     heap writing_world !! a = Some (Live st (writing file kind sent)) ->
     file <> resolve writing_world "./new.txt") /\
  exists out1 w1 w2 out3 w3,
    Out.open "./new.txt" writing_out writing_world = (Normal tt, out1, w1) /\
    write_all "Ss" [bytes "x"; bytes "yz"] out1 w1 = (Normal tt, out1, w2) /\
    Out.close out1 w2 = (Normal tt, out3, w3) /\
    disk w3 !! resolve writing_world "./new.txt" = Some (concat [bytes "x"; bytes "yz"]) /\
    readable "./new.txt" w3 = Some (concat [bytes "x"; bytes "yz"]).
Proof.
  assert (Out.valid writing_out writing_world) as Hvalid.
  { split; intros a Ha; injection Ha as <-; eexists _, _; vm_compute; reflexivity. }
  assert (forall a st file kind sent,
            Out.byname writing_out = Some a ->
            heap writing_world !! a = Some (Live st (writing file kind sent)) ->
            file <> resolve writing_world "./new.txt") as Hnot.
  { intros a st file kind sent Ha Hcell. injection Ha as <-.
    vm_compute in Hcell. injection Hcell as _ <- _ _. vm_compute. discriminate. }
  split; [exact Hvalid|]. split; [reflexivity|]. split; [exact Hnot|].
  apply (plain_file_holds_what_was_written (codec := framing) "./new.txt" "Ss"
           [bytes "x"; bytes "yz"] writing_out writing_world Hvalid eq_refl Hnot).
Defined.

Lemma flush_publishes_plain_output_witness :
  Out.valid Out.default empty_world /\
  can_write "log.txt" empty_world = true /\
  exists out1 w1 w2 w3 w4 out5 w5,
    Out.open "log.txt" Out.default empty_world = (Normal tt, out1, w1) /\
    write_all "Ss" [bytes "ab"] out1 w1 = (Normal tt, out1, w2) /\
    Out.flush out1 w2 = (Normal tt, out1, w3) /\
    disk w3 !! resolve empty_world "log.txt" = Some (concat [bytes "ab"]) /\
    write_all "Ss" [bytes "c"] out1 w3 = (Normal tt, out1, w4) /\
    Out.close out1 w4 = (Normal tt, out5, w5) /\
    disk w5 !! resolve empty_world "log.txt" =
      Some (concat [bytes "ab"] ++ concat [bytes "c"]).
Proof.
  assert (Out.valid Out.default empty_world) as Hvalid
    by (split; intros a Ha; discriminate).
  split; [exact Hvalid|]. split; [reflexivity|].
  apply (flush_publishes_plain_output (codec := framing) "log.txt" "Ss"
           [bytes "ab"] [bytes "c"] Out.default empty_world Hvalid eq_refl).
  intros a st file kind sent Ha. discriminate.
Defined.

Lemma writes_after_close_go_to_stdout_witness :
  Out.valid broken_out broken_world /\
  cout_rdstate broken_world = goodbit /\
  exists this1 w1 w2,
    Out.close broken_out broken_world = (Normal tt, this1, w1) /\
    Out.shl "Ss" ostream_write (bytes "done") this1 w1 = (Normal tt, this1, w2) /\
    console_out w2 = console_out broken_world ++ bytes "done" /\
    disk w2 = disk w1 /\ heap w2 = heap w1.
Proof.
  assert (Out.valid broken_out broken_world) as Hvalid.
  { split; intros a Ha; injection Ha as <-;
      exists failbit, unopened; vm_compute; reflexivity. }
  split; [exact Hvalid|]. split; [reflexivity|].
  apply (writes_after_close_go_to_stdout (codec := framing) "Ss" (bytes "done")
           broken_out broken_world Hvalid eq_refl).
Defined.

Lemma open_completes_previous_file_witness :
  Out.valid Out.default locked_world /\
  can_write "a.txt" locked_world = true /\
  resolve locked_world "a.txt" <> resolve locked_world "out.txt" /\
  exists out1 w1 w2 r out3 w3,
    Out.open "a.txt" Out.default locked_world = (Normal tt, out1, w1) /\
    write_all "Ss" [bytes "ab"] out1 w1 = (Normal tt, out1, w2) /\
    Out.open "out.txt" out1 w2 = (r, out3, w3) /\
    disk w3 !! resolve locked_world "a.txt" = Some (concat [bytes "ab"]) /\
    exists a, Out.byname out1 = Some a /\ heap w3 !! a = Some Freed /\
              Out.byname out3 <> Some a.
Proof.
  assert (Out.valid Out.default locked_world) as Hvalid
    by (split; intros a Ha; discriminate).
  assert (resolve locked_world "a.txt" <> resolve locked_world "out.txt") as Hother
    by (vm_compute; discriminate).
  split; [exact Hvalid|]. split; [reflexivity|]. split; [exact Hother|].
  apply (open_completes_previous_file (codec := framing) "a.txt" "out.txt" "Ss"
           [bytes "ab"] Out.default locked_world Hvalid eq_refl);
    [intros a st file kind sent Ha; discriminate | exact Hother].
Defined.

(** The same switch by another name of the same file, ["./a.txt"], leaves
    the file empty: the bytes reach it before the second [open] truncates
    it. *)
Example open_alias_truncates :
  exists out1 w1 w2 out3 w3,
    Out.open "a.txt" Out.default empty_world = (Normal tt, out1, w1) /\
    write_all "Ss" [bytes "ab"] out1 w1 = (Normal tt, out1, w2) /\
    Out.open "./a.txt" out1 w2 = (Normal tt, out3, w3) /\
    disk w3 !! "a.txt" = Some [].
Proof.
  eexists _, _, _, _, _.
  split; [vm_compute; reflexivity|]. split; [vm_compute; reflexivity|].
  split; vm_compute; reflexivity.
Qed.

(** With the small codec, whose writer frames its output when it is
    released: a compressed writer that the handle held on the same file is
    destroyed after the file has been truncated and leaves its image there;
    the two bytes written afterwards lie over it. *)
Example stale_writer_leaves_its_image :
  exists out1 w1 w2 out3 w3 w4 out5 w5,
    Out.open_compressed "a.txt" true 6%Z Out.default empty_world =
      (Normal tt, out1, w1) /\
    write_all "Ss" [bytes "xyz"] out1 w1 = (Normal tt, out1, w2) /\
    Out.open "a.txt" out1 w2 = (Normal tt, out3, w3) /\
    disk w3 !! "a.txt" = Some (marker :: bytes "xyz") /\
    write_all "Ss" [bytes "ab"] out3 w3 = (Normal tt, out3, w4) /\
    Out.close out3 w4 = (Normal tt, out5, w5) /\
    disk w5 !! "a.txt" = Some (bytes "abyz").
Proof.
  eexists _, _, _, _, _, _, _, _.
  split; [vm_compute; reflexivity|]. split; [vm_compute; reflexivity|].
  split; [vm_compute; reflexivity|]. split; [vm_compute; reflexivity|].
  split; [vm_compute; reflexivity|]. split; vm_compute; reflexivity.
Qed.

Lemma Out_calls_never_dangle_witness :
  Out.valid Out.default locked_world /\
  (is_null (rdbuf (Out.os Out.default)) = true -> good (Out.os Out.default) = false) /\
  exists this' w',
    Out_run [call_open "out.txt"; call_write "Ss" (bytes "x"); call_flush;
             call_open_compressed "a.gz" true 6%Z; call_write "Ss" (bytes "y");
             call_close; call_write "Ss" (bytes "z")]
            Out.default locked_world = Some (this', w') /\
    Out.valid this' w'.
Proof.
  assert (Out.valid Out.default locked_world) as Hvalid
    by (split; intros a Ha; discriminate).
  assert (is_null (rdbuf (Out.os Out.default)) = true ->
          good (Out.os Out.default) = false) as Hnull by (simpl; discriminate).
  split; [exact Hvalid|]. split; [exact Hnull|].
  apply (Out_calls_never_dangle (codec := framing) _ Out.default locked_world
           Hvalid Hnull).
Defined.

Lemma In_calls_leave_other_streams_witness :
  In.valid In.default (reading_world three_lines "c") /\
  alive 0 (reading_world three_lines "c") /\
  In.byname In.default <> Some 0 /\
  exists this' w',
    In_run [call_In_open "missing.txt"; call_In_open "data.txt"; call_In_rewind;
            call_In_close; call_In_close; call_In_rewind]
           In.default (reading_world three_lines "c") = Some (this', w') /\
    In.valid this' w' /\
    heap w' !! 0 = heap (reading_world three_lines "c") !! 0.
Proof.
  assert (In.valid In.default (reading_world three_lines "c")) as Hvalid
    by (intros a Ha; discriminate).
  assert (alive 0 (reading_world three_lines "c")) as Halive
    by (exists goodbit, (reading (bytes "c")); reflexivity).
  assert (In.byname In.default <> Some 0) as Hnot by discriminate.
  split; [exact Hvalid|]. split; [exact Halive|]. split; [exact Hnot|].
  apply (In_calls_leave_other_streams (codec := framing) _ In.default
           (reading_world three_lines "c") 0 Hvalid Halive Hnot).
Defined.

(** The probe on a directory and on a name that is none. *)
Example directory_exists_results :
  (directory_exists "results" some_dirs).1 = Normal tt /\
  (directory_exists "nowhere" some_dirs).1 =
    Raise (directory_does_not_exist "nowhere").
Proof. split; vm_compute; reflexivity. Qed.
